(** * Orbis Ship: the update orchestration of the Next.js server

    A shallow embedding of the route handlers of the updater
    ([src/unnamed/part_006]: [isInternetAvailable], [getLocalVersion],
    [runCommand], [downloadAndExtractUpdate], [checkForUpdates],
    [performUpdate], [GET], [POST]) and of the source-control updater class
    ([src/unnamed/part_004]: [NextJSUpdater]).

    The asynchronous functions are embedded as programs of a small free
    monad over the effects the code performs (network calls, file system,
    child processes, timers, console).  A program is run either
    sequentially against an environment, or by an event loop that
    interleaves the request handlers at their [await] points. *)

From Stdlib Require Import String Ascii List Bool Arith NArith Lia DecimalString.
From ExtLib Require Import Structures.Monad Structures.MonadState Structures.MonadExc.
Import ListNotations.
Import MonadNotation.
Local Open Scope string_scope.
Local Open Scope monad_scope.

(** ** JavaScript strings *)

Module JsString.

Definition truthy (s : string) : bool :=
  match s with EmptyString => false | String _ _ => true end.

(** The character class [[0-9]]. *)
Definition is_digit (c : ascii) : bool :=
  let n := nat_of_ascii c in ((48 <=? n) && (n <=? 57))%nat.

(** [[0-9]+] is greedy, and in the updater's pattern it is always followed
    by a character that is not a digit: the only run that can match is the
    longest one.  [digits s] splits [s] into that run and the rest. *)
Fixpoint digits (s : string) : string * string :=
  match s with
  | String c r =>
      if is_digit c then let (d, r') := digits r in (String c d, r')
      else (EmptyString, s)
  | EmptyString => (EmptyString, EmptyString)
  end.

(** [[0-9]+] followed by the rest of the pattern [k]. *)
Definition digits1 {A} (s : string) (k : string -> string -> option A) : option A :=
  let (d, r) := digits s in
  if truthy d then k d r else None.

Definition expect {A} (c : ascii) (s : string) (k : string -> option A) : option A :=
  match s with
  | String c' r => if Ascii.eqb c c' then k r else None
  | EmptyString => None
  end.

(** [v?]. *)
Definition optional_v (s : string) : string :=
  match s with String "v" r => r | _ => s end.

(** [/\(v?([0-9]+\.[0-9]+\.[0-9]+(?:\.[0-9]+)?)\)/] anchored at the start of
    [s]; the result is capture group 1.  [v?] and [(?:\.[0-9]+)?] are greedy;
    when the greedy choice fails the other one fails too (it would need a
    digit where there is a [v], or a [)] where there is a [.]). *)
Definition match_here (s : string) : option string :=
  expect "(" s (fun s1 =>
  digits1 (optional_v s1) (fun major s3 =>
  expect "." s3 (fun s4 =>
  digits1 s4 (fun minor s5 =>
  expect "." s5 (fun s6 =>
  digits1 s6 (fun patch s7 =>
  match s7 with
  | String "." s8 =>
      digits1 s8 (fun build s9 =>
      expect ")" s9 (fun _ =>
      Some (major ++ "." ++ minor ++ "." ++ patch ++ "." ++ build)))
  | _ => expect ")" s7 (fun _ => Some (major ++ "." ++ minor ++ "." ++ patch))
  end)))))).

(** [name.match(/.../)[1]]: the leftmost match, [None] for JavaScript's
    [null]. *)
Fixpoint match_version (s : string) : option string :=
  match match_here s with
  | Some v => Some v
  | None =>
      match s with
      | String _ r => match_version r
      | EmptyString => None
      end
  end.

(** The pattern in words: a number is a non-empty run of decimal digits;
    a version is three or four numbers separated by dots; a token is a
    version in parentheses, with an optional [v] before it. *)
Fixpoint all_digits (s : string) : bool :=
  match s with
  | String c r => is_digit c && all_digits r
  | EmptyString => true
  end.

Definition number (s : string) : Prop := truthy s = true /\ all_digits s = true.

Definition version (v : string) : Prop :=
  exists major minor patch,
    number major /\ number minor /\ number patch /\
    (v = major ++ "." ++ minor ++ "." ++ patch \/
     exists build, number build /\ v = major ++ "." ++ minor ++ "." ++ patch ++ "." ++ build).

(** The next character, if any, is not a digit. *)
Definition no_digit_ahead (s : string) : Prop :=
  match s with
  | String c _ => is_digit c = false
  | EmptyString => True
  end.

(** [s] starts with a token of version [v]. *)
Definition token_here (s v : string) : Prop :=
  version v /\ exists rest, s = "(" ++ v ++ ")" ++ rest \/ s = "(v" ++ v ++ ")" ++ rest.

(** [s] contains a token of version [v]. *)
Definition token_in (s v : string) : Prop :=
  exists before after, s = before ++ after /\ token_here after v.

(** [tag.replace(/^v/, '')]. *)
Definition strip_v (s : string) : string :=
  match s with String "v" r => r | _ => s end.

(** [s.endsWith(suffix)]. *)
Definition endsWith (s suffix : string) : bool :=
  (String.length suffix <=? String.length s)%nat &&
  String.eqb (substring (String.length s - String.length suffix)
                        (String.length suffix) s) suffix.

(** White space of [String.prototype.trim] in the ASCII range. *)
Definition is_space (c : ascii) : bool :=
  let n := nat_of_ascii c in (((9 <=? n) && (n <=? 13)) || (n =? 32))%nat.

Fixpoint trim_start (s : string) : string :=
  match s with
  | String c r => if is_space c then trim_start r else s
  | EmptyString => EmptyString
  end.

Fixpoint trim_end (s : string) : string :=
  match s with
  | String c r =>
      match trim_end r with
      | EmptyString => if is_space c then EmptyString else String c EmptyString
      | r' => String c r'
      end
  | EmptyString => EmptyString
  end.

Definition trim (s : string) : string := trim_end (trim_start s).

(** Template-literal rendering of a number. *)
Definition of_nat (n : nat) : string := NilEmpty.string_of_uint (Nat.to_uint n).

(** Template-literal rendering of a [string | null]. *)
Definition of_nullable (o : option string) : string :=
  match o with Some s => s | None => "null" end.

End JsString.

(** ** JavaScript values exchanged with the environment *)

(** A thrown [Error]; only its [message] is ever inspected. *)
Record JsError : Type := mkError { message : string }.

(** A property of a parsed JSON object that the code reads without a type
    check ([data.name], [data.tag_name]).  [JOther] is any value that is
    not a string, [null] or [undefined], with its truthiness and its
    rendering in a template literal. *)
Inductive jsfield : Type :=
| JUndefined
| JNull
| JStr (s : string)
| JOther (truthy : bool) (shown : string).

Definition field_truthy (f : jsfield) : bool :=
  match f with
  | JStr s => JsString.truthy s
  | JOther b _ => b
  | JUndefined | JNull => false
  end.

Definition field_shown (f : jsfield) : string :=
  match f with
  | JUndefined => "undefined"
  | JNull => "null"
  | JStr s => s
  | JOther _ shown => shown
  end.

Record asset : Type := mkAsset { asset_name : string; browser_download_url : string }.

(** The JSON object of a release; [assets = None] when the property is
    missing or falsy, and otherwise a list of objects with string
    properties, as the code's type annotation assumes. *)
Record release : Type := mkRelease {
  name : jsfield;
  tag_name : jsfield;
  assets : option (list asset)
}.

(** The value [response.json()] resolves to: the JSON [null], or an
    object. *)
Inductive feed_body : Type :=
| BodyNull
| BodyRelease (r : release).

Record response : Type := mkResponse { status : nat; statusText : string }.

(** [response.ok]. *)
Definition ok (r : response) : bool := (200 <=? status r)%nat && (status r <=? 299)%nat.

(** The arguments of the callback of [exec]. *)
Record exec_result : Type := mkExec { err : option JsError; stdout : string; stderr : string }.

Definition truthy_opt (o : option string) : bool :=
  match o with Some s => JsString.truthy s | None => false end.

(** [a !== b] on [string | null]. *)
Definition strict_neq (a b : option string) : bool :=
  match a, b with
  | Some x, Some y => negb (String.eqb x y)
  | None, None => false
  | _, _ => true
  end.

(** ** Effects *)

Inductive level : Type := LLog | LWarn | LError.

(** Functions handed to a timer or called without [await]. *)
Inductive callback : Type :=
| CbCheckForUpdates
| CbProcessExit (code : nat).

(** The optional callbacks of [UpdaterConfig]. *)
Inductive hook : Type :=
| OnUpdateStart
| OnUpdateComplete (success : bool)
| OnUpdateError (e : JsError).

Inductive eff : Type -> Type :=
| Console (l : level) (args : list string) : eff unit
| Now : eff string
| Cwd : eff string
| NodeEnv : eff (option string)
| Fetch (method url : string) (headers : list (string * string))
        (abort_after : option N) : eff (JsError + response)
| ResponseJson : eff (JsError + feed_body)
| ResponseArrayBuffer : eff (JsError + string)
| ReadPackageVersion (path : string) : eff (JsError + option string)
| ExistsSync (path : string) : eff bool
| MkdirSync (path : string) : eff (JsError + unit)
| WriteFileSync (path data : string) : eff (JsError + unit)
| ReaddirSync (path : string) : eff (JsError + list string)
| StatIsDirectory (path : string) : eff (JsError + bool)
| RmSync (path : string) : eff (JsError + unit)
| Exec (cmd cwd : string) (timeout : N) : eff exec_result
| SetTimeout (cb : callback) (ms : N) : eff nat
| SetInterval (cb : callback) (ms : N) : eff nat
| ClearInterval (handle : nat) : eff unit
| Spawn (cb : callback) : eff unit
| Hook (h : hook) : eff (JsError + unit).

(** The effects the code [await]s: the handler is suspended until the
    environment answers, and other handlers may run meanwhile. *)
Definition is_async {X} (e : eff X) : bool :=
  match e with
  | Fetch _ _ _ _ | ResponseJson | ResponseArrayBuffer | Exec _ _ _ => true
  | _ => false
  end.

(** ** Programs *)

(** A program over a store [S] of module-level or instance variables. *)
Inductive prog (S A : Type) : Type :=
| Ret (a : A)
| Throw (e : JsError)
| GetStore (k : S -> prog S A)
| PutStore (s : S) (k : prog S A)
| Vis {X : Type} (e : eff X) (k : X -> prog S A).

Arguments Ret {S A} a.
Arguments Throw {S A} e.
Arguments GetStore {S A} k.
Arguments PutStore {S A} s k.
Arguments Vis {S A X} e k.

Fixpoint pbind {S A B} (p : prog S A) (f : A -> prog S B) : prog S B :=
  match p with
  | Ret a => f a
  | Throw e => Throw e
  | GetStore k => GetStore (fun s => pbind (k s) f)
  | PutStore s k => PutStore s (pbind k f)
  | Vis e k => Vis e (fun x => pbind (k x) f)
  end.

(** [try { p } catch (error) { h error }]. *)
Fixpoint try_catch {S A} (p : prog S A) (h : JsError -> prog S A) : prog S A :=
  match p with
  | Ret a => Ret a
  | Throw e => h e
  | GetStore k => GetStore (fun s => try_catch (k s) h)
  | PutStore s k => PutStore s (try_catch k h)
  | Vis e k => Vis e (fun x => try_catch (k x) h)
  end.

#[export] Instance Monad_prog {S} : Monad (prog S) :=
  {| ret := fun _ a => Ret a; bind := fun _ _ p f => pbind p f |}.

#[export] Instance MonadExc_prog {S} : MonadExc JsError (prog S) :=
  {| raise := fun _ e => Throw e; catch := fun _ p h => try_catch p h |}.

#[export] Instance MonadState_prog {S} : MonadState S (prog S) :=
  {| get := GetStore (fun s => Ret s); put := fun s => PutStore s (Ret tt) |}.

Definition perform {S X} (e : eff X) : prog S X := Vis e (fun x => Ret x).

(** An operation that may throw, or a promise that may reject. *)
Definition attempt {S X} (e : eff (JsError + X)) : prog S X :=
  r <- perform e ;;
  match r with
  | inl error => raise error
  | inr x => ret x
  end.

Definition console {S} (l : level) (args : list string) : prog S unit :=
  perform (Console l args).

(** A computation without effects that may throw. *)
Definition throwing {S A} (r : JsError + A) : prog S A :=
  match r with
  | inl error => raise error
  | inr a => ret a
  end.

(** ** Sequential runs *)

(** An effect together with the environment's answer. *)
Record event : Type := Ev { ev_type : Type; ev_eff : eff ev_type; ev_ans : ev_type }.
Arguments Ev {ev_type} ev_eff ev_ans.

(** The environment answers an effect from what happened so far. *)
Definition env : Type := forall X, list event -> eff X -> X.

Record result (S A : Type) : Type := mkResult {
  outcome : JsError + A;
  final : S;
  events : list event
}.
Arguments mkResult {S A}.
Arguments outcome {S A}.
Arguments final {S A}.
Arguments events {S A}.

Definition emit {S A} (ev : event) (r : result S A) : result S A :=
  mkResult (outcome r) (final r) (ev :: events r).

(** The events [t] came first. *)
Definition after {S A} (t : list event) (r : result S A) : result S A :=
  mkResult (outcome r) (final r) (t ++ events r).

(** [run w h s p] runs [p] to its end, without interleaving, from the store
    [s] and after the events [h]; [events] are those of this run. *)
Fixpoint run {S A} (w : env) (h : list event) (s : S) (p : prog S A) : result S A :=
  match p with
  | Ret a => mkResult (inr a) s []
  | Throw e => mkResult (inl e) s []
  | GetStore k => run w h s (k s)
  | PutStore s' k => run w h s' k
  | Vis e k =>
      let answer := w _ h e in
      emit (Ev e answer) (run w (h ++ [Ev e answer]) s (k answer))
  end.

(** ** Paths, quoting *)

Definition dquote : string := String (ascii_of_nat 34) EmptyString.
Definition backslash : string := String (ascii_of_nat 92) EmptyString.
(** The arrow of the "Update available" log line (UTF-8). *)
Definition arrow : string :=
  String (ascii_of_nat 226) (String (ascii_of_nat 134) (String (ascii_of_nat 146) EmptyString)).

(** [path.join(a, b)] for an absolute [a] and a plain name [b] (Windows). *)
Definition path_join (a b : string) : string := a ++ backslash ++ b.

(** ** The updater route: [src/unnamed/part_006] *)

Module Route.

Definition REPO : string := "mehtabshadan/orbis-ship".
Definition GITHUB_API : string := "https://api.github.com/repos/" ++ REPO ++ "/releases/latest".
Definition UPDATE_CHECK_INTERVAL : N := 60 * 60 * 1000.
Definition USER_AGENT : list (string * string) := [("User-Agent", "orbis-ship-updater")].

Record UpdateInfo : Type := mkUpdateInfo {
  updateAvailable : bool;
  localVersion : option string;
  latestVersion : option string;
  lastCheck : string;
  releaseName : jsfield
}.

(** The module-level variables. *)
Record store : Type := mkStore {
  isUpdaterRunning : bool;
  checkInterval : option nat;
  lastUpdateInfo : UpdateInfo
}.

Definition initial_store (loaded_at : string) : store :=
  mkStore false None (mkUpdateInfo false None None loaded_at JUndefined).

Definition set_isUpdaterRunning (b : bool) (s : store) : store :=
  mkStore b (checkInterval s) (lastUpdateInfo s).
Definition set_checkInterval (h : option nat) (s : store) : store :=
  mkStore (isUpdaterRunning s) h (lastUpdateInfo s).
Definition set_lastUpdateInfo (i : UpdateInfo) (s : store) : store :=
  mkStore (isUpdaterRunning s) (checkInterval s) i.
Definition set_updateAvailable (b : bool) (i : UpdateInfo) : UpdateInfo :=
  mkUpdateInfo b (localVersion i) (latestVersion i) (lastCheck i) (releaseName i).

Definition M : Type -> Type := prog store.

Definition assign (f : store -> store) : M unit :=
  s <- get ;; put (f s).

(** The [AbortController] and its timer of 5 seconds are the [abort_after]
    of the fetch: the environment rejects the promise when it fires. *)
Definition isInternetAvailable : M bool :=
  catch
    (response <- attempt (Fetch "HEAD" "https://www.google.com"
                                [("Cache-Control", "no-cache")] (Some 5000%N)) ;;
     ret (ok response))
    (fun error =>
       console LLog ["[updater] Internet connectivity check failed:"; message error] ;;
       ret false).

Definition getLocalVersion : M (option string) :=
  catch
    (cwd <- perform Cwd ;;
     version <- attempt (ReadPackageVersion (path_join cwd "package.json")) ;;
     ret (if truthy_opt version then version else None))
    (fun error =>
       console LError ["[updater] Failed to read package.json:"; message error] ;;
       ret None).

Definition runCommand (cmd : string) : M string :=
  console LLog ["[updater] Running command:"; cmd] ;;
  cwd <- perform Cwd ;;
  r <- perform (Exec cmd cwd 300000%N) ;;
  match err r with
  | Some e =>
      console LError ["[updater] Command failed:"; message e] ;;
      (if JsString.truthy (stderr r)
       then console LError ["[updater] STDERR:"; stderr r] else ret tt) ;;
      raise e
  | None =>
      (if JsString.truthy (stdout r)
       then console LLog ["[updater] STDOUT:"; JsString.trim (stdout r)] else ret tt) ;;
      (if JsString.truthy (stderr r)
       then console LWarn ["[updater] STDERR:"; JsString.trim (stderr r)] else ret tt) ;;
      ret (stdout r)
  end.

Definition downloadAndExtractUpdate (downloadUrl : string) : M unit :=
  cwd <- perform Cwd ;;
  let tempDir := path_join cwd "temp-update" in
  let zipFile := path_join tempDir "update.zip" in
  present <- perform (ExistsSync tempDir) ;;
  (if negb present then attempt (MkdirSync tempDir) else ret tt) ;;
  catch
    (console LLog ["[updater] Downloading update from:"; downloadUrl] ;;
     response <- attempt (Fetch "GET" downloadUrl USER_AGENT None) ;;
     if negb (ok response)
     then raise (mkError ("Download failed: " ++ JsString.of_nat (status response)))
     else
       buffer <- attempt ResponseArrayBuffer ;;
       attempt (WriteFileSync zipFile buffer) ;;
       runCommand ("powershell -Command " ++ dquote ++ "Expand-Archive -Path '" ++ zipFile
                   ++ "' -DestinationPath '" ++ tempDir ++ "' -Force" ++ dquote) ;;
       console LLog ["[updater] Update downloaded and extracted successfully"])
    (fun error =>
       console LError ["[updater] Failed to download/extract update:"; message error] ;;
       raise error).

(** [data.name] and the like throw a [TypeError] on the JSON [null]. *)
Definition property {A} (data : feed_body) (prop : string) (f : release -> A) : M A :=
  match data with
  | BodyRelease r => ret (f r)
  | BodyNull => raise (mkError ("Cannot read properties of null (reading '" ++ prop ++ "')"))
  end.

(** [data.name.match(...)] and [data.tag_name.replace(...)] throw when the
    property is a truthy value that is not a string. *)
Definition not_a_function (what : string) : JsError := mkError (what ++ " is not a function").

(** The block that extracts the version from the release name:
    [let latestVersion = null; if (data.name) { ... }]. *)
Definition version_from_name (data_name : jsfield) : JsError + option string :=
  match data_name with
  | JStr s => inr (if JsString.truthy s then JsString.match_version s else None)
  | JOther true _ => inl (not_a_function "data.name.match")
  | _ => inr None
  end.

(** The fallback: [if (!latestVersion && data.tag_name) { ... }]. *)
Definition fallback_to_tag (latestVersion : option string) (data_tag_name : jsfield)
    : JsError + option string :=
  if negb (truthy_opt latestVersion) && field_truthy data_tag_name
  then match data_tag_name with
       | JStr t => inr (Some (JsString.strip_v t))
       | _ => inl (not_a_function "data.tag_name.replace")
       end
  else inr latestVersion.

Definition checkForUpdates : M unit :=
  catch
    (console LLog ["[updater] Checking for updates..."] ;;
     hasInternet <- isInternetAvailable ;;
     if negb hasInternet
     then console LLog ["[updater] No internet connection available, skipping update check"]
     else
       response <- attempt (Fetch "GET" GITHUB_API USER_AGENT None) ;;
       if negb (ok response)
       then raise (mkError ("GitHub API responded " ++ JsString.of_nat (status response)
                            ++ ": " ++ statusText response))
       else
         data <- attempt ResponseJson ;;
         localVersion <- getLocalVersion ;;
         data_name <- property data "name" name ;;
         fromName <- throwing (version_from_name data_name) ;;
         data_tag_name <- property data "tag_name" tag_name ;;
         latestVersion <- throwing (fallback_to_tag fromName data_tag_name) ;;
         console LLog ["[updater] Release name: " ++ dquote ++ field_shown data_name ++ dquote] ;;
         console LLog ["[updater] Extracted version from name: "
                       ++ JsString.of_nullable latestVersion] ;;
         console LLog ["[updater] Local version: " ++ JsString.of_nullable localVersion
                       ++ " | Latest version: " ++ JsString.of_nullable latestVersion] ;;
         now <- perform Now ;;
         assign (set_lastUpdateInfo
                   (mkUpdateInfo false localVersion latestVersion now data_name)) ;;
         if negb (truthy_opt latestVersion)
         then console LLog ["[updater] Could not extract version from release name: "
                            ++ dquote ++ field_shown data_name ++ dquote]
         else if strict_neq localVersion latestVersion
         then
           console LLog ["[updater] Update available: " ++ JsString.of_nullable localVersion
                         ++ " " ++ arrow ++ " " ++ JsString.of_nullable latestVersion] ;;
           assign (fun s => set_lastUpdateInfo (set_updateAvailable true (lastUpdateInfo s)) s)
         else console LLog ["[updater] Application is up-to-date"])
    (fun error => console LError ["[updater] Update check failed:"; message error]).

(** [readdirSync(tempDir).find(name => statSync(join(tempDir, name)).isDirectory())]. *)
Fixpoint find_directory (tempDir : string) (names : list string) : M (option string) :=
  match names with
  | [] => ret None
  | entry :: rest =>
      isDirectory <- (attempt (StatIsDirectory (path_join tempDir entry)) : M bool) ;;
      if isDirectory : bool then ret (Some entry) else find_directory tempDir rest
  end.

Definition performUpdate : M bool :=
  catch
    (console LLog ["[updater] Starting update process..."] ;;
     response <- attempt (Fetch "GET" GITHUB_API USER_AGENT None) ;;
     if negb (ok response)
     then raise (mkError ("GitHub API responded " ++ JsString.of_nat (status response)))
     else
       data <- attempt ResponseJson ;;
       data_assets <- property data "assets" assets ;;
       let release_assets := match data_assets with Some l => l | None => [] end in
       match find (fun a => JsString.endsWith (asset_name a) ".zip") release_assets with
       | None => raise (mkError "No ZIP asset found in release")
       | Some zipAsset =>
           downloadAndExtractUpdate (browser_download_url zipAsset) ;;
           cwd <- perform Cwd ;;
           let tempDir := path_join cwd "temp-update" in
           entries <- attempt (ReaddirSync tempDir) ;;
           extractedDir <- find_directory tempDir entries ;;
           if negb (truthy_opt extractedDir)
           then raise (mkError "No extracted directory found")
           else
             let updateSource := path_join tempDir (JsString.of_nullable extractedDir) in
             cwd' <- perform Cwd ;;
             runCommand ("robocopy " ++ dquote ++ updateSource ++ dquote ++ " "
                         ++ dquote ++ cwd' ++ dquote ++ " /E /XD temp-update") ;;
             attempt (RmSync tempDir) ;;
             console LLog ["[updater] Update completed successfully!"] ;;
             console LLog ["[updater] Restarting application..."] ;;
             perform (SetTimeout (CbProcessExit 0) 2000%N) ;;
             ret true
       end)
    (fun error =>
       console LError ["[updater] Update process failed:"; message error] ;;
       ret false).

Definition startBackgroundUpdater : M unit :=
  s <- get ;;
  match checkInterval s with
  | Some handle => perform (ClearInterval handle)
  | None => ret tt
  end ;;
  perform (Spawn CbCheckForUpdates) ;;
  handle <- perform (SetInterval CbCheckForUpdates UPDATE_CHECK_INTERVAL) ;;
  assign (set_checkInterval (Some handle)) ;;
  console LLog ["[updater] Background updater started - checking every hour"].

Definition stopBackgroundUpdater : M unit :=
  s <- get ;;
  match checkInterval s with
  | Some handle =>
      perform (ClearInterval handle) ;;
      assign (set_checkInterval None)
  | None => ret tt
  end ;;
  console LLog ["[updater] Background updater stopped"].

Definition initializeAutoUpdater : M unit :=
  s <- get ;;
  if negb (isUpdaterRunning s)
  then
    assign (set_isUpdaterRunning true) ;;
    startBackgroundUpdater ;;
    console LLog ["[updater] Auto-updater initialized and started automatically"]
  else ret tt.

(** The JSON bodies handed to [NextResponse.json]. *)
Inductive payload : Type :=
| StatusData (isRunning : bool) (localVersion : option string) (repository : string)
             (lastCheck : string) (updateAvailable : bool) (latestVersion : option string)
             (releaseName : jsfield) (message : string)
| RunningData (message : string) (isRunning : bool)
| CheckData (message : string) (updateInfo : UpdateInfo)
| UpdateData (message : string) (updatePerformed : bool)
| ErrorData (error : string).

Record HttpResponse : Type := mkHttp {
  http_status : nat;
  success : bool;
  body : payload
}.

Definition GET : M HttpResponse :=
  catch
    (s <- get ;;
     local <- getLocalVersion ;;
     let info := lastUpdateInfo s in
     ret (mkHttp 200 true
            (StatusData (isUpdaterRunning s) local REPO (lastCheck info)
                        (updateAvailable info) (latestVersion info) (releaseName info)
                        (if isUpdaterRunning s then "Auto-updater is running"
                         else "Auto-updater is stopped"))))
    (fun error =>
       console LError ["Updater status error:"; message error] ;;
       ret (mkHttp 500 false (ErrorData "Failed to get updater status"))).

(** What [request.json()] resolves to: the JSON [null], or an object whose
    [action] is a string or anything else ([None]). *)
Inductive request_body : Type :=
| ReqNull
| ReqObject (action : option string).

(** A request, by the outcome of [await request.json()]. *)
Definition NextRequest : Type := (JsError + request_body)%type.

Definition destructure_action (b : request_body) : M (option string) :=
  match b with
  | ReqObject action => ret action
  | ReqNull => raise (mkError "Cannot destructure property 'action' of 'body' as it is null.")
  end.

Definition action_is (action : option string) (label : string) : bool :=
  match action with Some a => String.eqb a label | None => false end.

Definition POST (request : NextRequest) : M HttpResponse :=
  catch
    (body <- match request with inl error => raise error | inr b => ret b end ;;
     action <- destructure_action body ;;
     if action_is action "start" then
       assign (set_isUpdaterRunning true) ;;
       startBackgroundUpdater ;;
       ret (mkHttp 200 true (RunningData "Background auto-updater started" true))
     else if action_is action "stop" then
       assign (set_isUpdaterRunning false) ;;
       stopBackgroundUpdater ;;
       ret (mkHttp 200 true (RunningData "Background auto-updater stopped" false))
     else if action_is action "check" then
       checkForUpdates ;;
       s <- get ;;
       ret (mkHttp 200 true (CheckData "Update check completed" (lastUpdateInfo s)))
     else if action_is action "update" then
       updateResult <- performUpdate ;;
       ret (mkHttp 200 true
              (UpdateData (if updateResult : bool
                           then "Update initiated - application will restart"
                           else "Update failed")
                          updateResult))
     else
       ret (mkHttp 400 false
              (ErrorData "Invalid action. Supported actions: start, stop, check, update")))
    (fun error =>
       console LError ["Updater action error:"; message error] ;;
       ret (mkHttp 500 false (ErrorData ("Updater action failed: " ++ message error)))).

(** The response of the [update] command after [performUpdate] gave [b]. *)
Definition update_response (b : bool) : HttpResponse :=
  mkHttp 200 true
         (UpdateData (if b then "Update initiated - application will restart"
                      else "Update failed") b).

(** The callback of the hourly timer. *)
Definition scheduled_tick : M unit := checkForUpdates.

(** The commands [{ action: 'update' }] and [{ action: 'check' }]. *)
Definition update_request : NextRequest := inr (ReqObject (Some "update")).
Definition check_request : NextRequest := inr (ReqObject (Some "check")).

End Route.

(** ** The source-control updater: [src/unnamed/part_004] *)

Module Updater.

Record UpdaterConfig : Type := mkConfig {
  repo : string;
  packageJsonPath : option string;
  intervalMs : option N;
  onUpdateStart : bool;
  onUpdateComplete : bool;
  onUpdateError : bool
}.

(** The fields the constructor sets; the optional callbacks are kept as
    flags and called through the [Hook] effect. *)
Record NextJSUpdater : Type := mkUpdater {
  this_repo : string;
  githubApiUrl : string;
  this_packageJsonPath : string;
  this_intervalMs : N;
  has_onUpdateStart : bool;
  has_onUpdateComplete : bool;
  has_onUpdateError : bool
}.

(** The one mutable field, [checkInterval] (set by [start] and [stop]). *)
Definition store : Type := option nat.
Definition M : Type -> Type := prog store.

Definition constructor (config : UpdaterConfig) : M NextJSUpdater :=
  path <- match packageJsonPath config with
          | Some p => if JsString.truthy p then ret p
                      else (cwd <- perform Cwd ;; ret (path_join cwd "package.json"))
          | None => cwd <- perform Cwd ;; ret (path_join cwd "package.json")
          end ;;
  ret (mkUpdater (repo config)
         ("https://api.github.com/repos/" ++ repo config ++ "/releases/latest")
         path
         (match intervalMs config with
          | Some ms => if N.eqb ms 0 then (60 * 60 * 1000)%N else ms
          | None => (60 * 60 * 1000)%N
          end)
         (onUpdateStart config) (onUpdateComplete config) (onUpdateError config)).

(** [this.onUpdateStart?.()] and the like. *)
Definition optional_call (present : bool) (h : hook) : M unit :=
  if present then attempt (Hook h) else ret tt.

Section Methods.

Variable this : NextJSUpdater.

Definition getLocalVersion : M (option string) :=
  catch
    (version <- attempt (ReadPackageVersion (this_packageJsonPath this)) ;;
     ret (if truthy_opt version then version else None))
    (fun error =>
       console LError ["[updater] Failed to read package.json:"; message error] ;;
       ret None).

Definition fetchLatestRelease : M (option release) :=
  catch
    (response <- attempt (Fetch "GET" (githubApiUrl this)
                            [("User-Agent", "nextjs-auto-updater");
                             ("Accept", "application/vnd.github.v3+json")] None) ;;
     if negb (ok response)
     then raise (mkError ("GitHub API responded with " ++ JsString.of_nat (status response)
                          ++ ": " ++ statusText response))
     else
       data <- attempt ResponseJson ;;
       ret (match data with BodyRelease r => Some r | BodyNull => None end))
    (fun error =>
       console LError ["[updater] Failed to fetch latest release:"; message error] ;;
       ret None).

(** [path.dirname]: everything before the last separator. *)
Fixpoint dirname_aux (s : string) : option string :=
  match s with
  | EmptyString => None
  | String c r =>
      match dirname_aux r with
      | Some d => Some (String c d)
      | None => if Ascii.eqb c "/" || Ascii.eqb c (ascii_of_nat 92)
                then Some EmptyString else None
      end
  end.

Definition dirname (s : string) : string :=
  match dirname_aux s with
  | Some d => d
  | None => "."
  end.

Definition runCommand (command : string) : M string :=
  console LLog ["[updater] Running: " ++ command] ;;
  r <- perform (Exec command (dirname (this_packageJsonPath this)) 300000%N) ;;
  match err r with
  | Some error =>
      console LError ["[updater] Command failed: " ++ message error] ;;
      console LError ["[updater] stderr: " ++ stderr r] ;;
      raise error
  | None =>
      (if JsString.truthy (stdout r)
       then console LLog ["[updater] stdout: " ++ stdout r] else ret tt) ;;
      ret (stdout r)
  end.

Definition performUpdate : M bool :=
  catch
    (optional_call (has_onUpdateStart this) OnUpdateStart ;;
     console LLog ["[updater] Starting update process..."] ;;
     runCommand "git pull" ;;
     console LLog ["[updater] Git pull completed"] ;;
     runCommand "npm install --no-audit --no-fund" ;;
     console LLog ["[updater] Dependencies installed"] ;;
     runCommand "npm run build" ;;
     console LLog ["[updater] Build completed"] ;;
     catch
       (runCommand "pm2 restart orbis-ship" ;;
        console LLog ["[updater] PM2 restart completed"])
       (fun pm2Error =>
          console LWarn ["[updater] PM2 restart failed. Application may need manual restart."] ;;
          console LWarn ["[updater] PM2 Error:"; message pm2Error] ;;
          node_env <- perform NodeEnv ;;
          if strict_neq node_env (Some "production") then ret tt
          else
            console LLog ["[updater] Exiting process for external restart..."] ;;
            perform (SetTimeout (CbProcessExit 0) 2000%N) ;;
            ret tt) ;;
     optional_call (has_onUpdateComplete this) (OnUpdateComplete true) ;;
     ret true)
    (fun error =>
       console LError ["[updater] Update failed:"; message error] ;;
       optional_call (has_onUpdateError this) (OnUpdateError error) ;;
       optional_call (has_onUpdateComplete this) (OnUpdateComplete false) ;;
       ret false).

Record UpdateCheck : Type := mkCheck {
  updateAvailable : bool;
  localVersion : option string;
  latestVersion : option string;
  releaseInfo : option release
}.

Definition checkForUpdates : M UpdateCheck :=
  catch
    (localVersion <- getLocalVersion ;;
     latestRelease <- fetchLatestRelease ;;
     match latestRelease with
     | None => ret (mkCheck false localVersion None None)
     | Some rel =>
         latestVersion <- match tag_name rel with
                          | JStr t => ret (JsString.strip_v t)
                          | JUndefined =>
                              raise (mkError "Cannot read properties of undefined (reading 'replace')")
                          | JNull =>
                              raise (mkError "Cannot read properties of null (reading 'replace')")
                          | JOther _ _ =>
                              raise (mkError "latestRelease.tag_name.replace is not a function")
                          end ;;
         let updateAvailable := strict_neq localVersion (Some latestVersion) in
         console LLog ["[updater] Version check - Local: " ++ JsString.of_nullable localVersion
                       ++ ", Latest: " ++ latestVersion ++ ", Update available: "
                       ++ (if updateAvailable then "true" else "false")] ;;
         ret (mkCheck updateAvailable localVersion (Some latestVersion) (Some rel))
     end)
    (fun error =>
       console LError ["[updater] Check for updates failed:"; message error] ;;
       localVersion <- getLocalVersion ;;
       ret (mkCheck false localVersion None None)).

Definition checkAndUpdate : M bool :=
  updateCheck <- checkForUpdates ;;
  if updateAvailable updateCheck
  then
    console LLog ["[updater] Update available: "
                  ++ JsString.of_nullable (latestVersion updateCheck)] ;;
    performUpdate
  else
    console LLog ["[updater] No updates available"] ;;
    ret false.

Definition manualUpdate : M bool :=
  console LLog ["[updater] Manual update triggered"] ;;
  checkAndUpdate.

End Methods.

End Updater.

(** ** Environments that answer each kind of effect in one fixed way *)

Record world : Type := mkWorld {
  w_probe : JsError + response;
  w_feed_url : string;
  w_feed : JsError + response;
  w_json : JsError + feed_body;
  w_download : JsError + response;
  w_bytes : JsError + string;
  w_version : JsError + option string;
  w_exists : bool;
  w_mkdir : JsError + unit;
  w_write : JsError + unit;
  w_readdir : JsError + list string;
  w_isdir : string -> JsError + bool;
  w_rm : JsError + unit;
  w_exec : string -> exec_result;
  w_node_env : option string;
  w_cwd : string;
  w_now : string;
  w_handle : nat;
  w_hook : JsError + unit
}.

Definition env_of (x : world) : env :=
  fun X _ e =>
    match e in eff X return X with
    | Console _ _ => tt
    | Now => w_now x
    | Cwd => w_cwd x
    | NodeEnv => w_node_env x
    | Fetch method url _ _ =>
        if String.eqb method "HEAD" then w_probe x
        else if String.eqb url (w_feed_url x) then w_feed x
        else w_download x
    | ResponseJson => w_json x
    | ResponseArrayBuffer => w_bytes x
    | ReadPackageVersion _ => w_version x
    | ExistsSync _ => w_exists x
    | MkdirSync _ => w_mkdir x
    | WriteFileSync _ _ => w_write x
    | ReaddirSync _ => w_readdir x
    | StatIsDirectory path => w_isdir x path
    | RmSync _ => w_rm x
    | Exec cmd _ _ => w_exec x cmd
    | SetTimeout _ _ => w_handle x
    | SetInterval _ _ => w_handle x
    | ClearInterval _ => tt
    | Spawn _ => tt
    | Hook _ => w_hook x
    end.

Definition OK : response := mkResponse 200 "OK".

(** Everything succeeds: the release [rel] is published, the bundle unpacks
    into the directory [orbis-ship], and [package.json] has [version]. *)
Definition online (rel : feed_body) (version : option string) : world :=
  {| w_probe := inr OK;
     w_feed_url := Route.GITHUB_API;
     w_feed := inr OK;
     w_json := inr rel;
     w_download := inr OK;
     w_bytes := inr "PK";
     w_version := inr version;
     w_exists := false;
     w_mkdir := inr tt;
     w_write := inr tt;
     w_readdir := inr ["update.zip"; "orbis-ship"];
     w_isdir := fun path => inr (JsString.endsWith path "orbis-ship");
     w_rm := inr tt;
     w_exec := fun _ => mkExec None "" "";
     w_node_env := Some "production";
     w_cwd := "C:/orbis";
     w_now := "2025-01-01T00:00:00.000Z";
     w_handle := 1;
     w_hook := inr tt |}.

Definition with_probe (p : JsError + response) (x : world) : world :=
  {| w_probe := p; w_feed_url := w_feed_url x; w_feed := w_feed x; w_json := w_json x;
     w_download := w_download x; w_bytes := w_bytes x; w_version := w_version x;
     w_exists := w_exists x; w_mkdir := w_mkdir x; w_write := w_write x;
     w_readdir := w_readdir x; w_isdir := w_isdir x; w_rm := w_rm x; w_exec := w_exec x;
     w_node_env := w_node_env x; w_cwd := w_cwd x; w_now := w_now x;
     w_handle := w_handle x; w_hook := w_hook x |}.

Definition with_download (d : JsError + response) (x : world) : world :=
  {| w_probe := w_probe x; w_feed_url := w_feed_url x; w_feed := w_feed x; w_json := w_json x;
     w_download := d; w_bytes := w_bytes x; w_version := w_version x;
     w_exists := w_exists x; w_mkdir := w_mkdir x; w_write := w_write x;
     w_readdir := w_readdir x; w_isdir := w_isdir x; w_rm := w_rm x; w_exec := w_exec x;
     w_node_env := w_node_env x; w_cwd := w_cwd x; w_now := w_now x;
     w_handle := w_handle x; w_hook := w_hook x |}.

Definition with_feed (f : JsError + response) (x : world) : world :=
  {| w_probe := w_probe x; w_feed_url := w_feed_url x; w_feed := f; w_json := w_json x;
     w_download := w_download x; w_bytes := w_bytes x; w_version := w_version x;
     w_exists := w_exists x; w_mkdir := w_mkdir x; w_write := w_write x;
     w_readdir := w_readdir x; w_isdir := w_isdir x; w_rm := w_rm x; w_exec := w_exec x;
     w_node_env := w_node_env x; w_cwd := w_cwd x; w_now := w_now x;
     w_handle := w_handle x; w_hook := w_hook x |}.

Definition titled (title : jsfield) (tag : jsfield) : feed_body :=
  BodyRelease (mkRelease title tag
                 (Some [mkAsset "orbis-ship.zip" "https://example.invalid/orbis-ship.zip"])).

(** ** The event loop of the server

    Node runs one handler at a time; a handler gives up control only at an
    [await] whose promise is not settled yet (here: the asynchronous
    effects), and any other handler may run before it is resumed.  The
    [await request.json()] of [POST] is taken as settled on arrival. *)

Module EventLoop.

Import Route.

Inductive source : Type :=
| FromGET
| FromPOST (request : NextRequest)
| FromTimer (handle : nat)
| FromSpawn (cb : callback).

(** What a handler leaves behind: a response, or nothing (a callback). *)
Definition reply : Type := option HttpResponse.

(** A handler suspended at an [await]. *)
Record task : Type := mkTask {
  origin : source;
  awaited_type : Type;
  awaited : eff awaited_type;
  resume : awaited_type -> M reply
}.

Inductive paused : Type :=
| Finished (o : JsError + reply)
| Suspended {X : Type} (e : eff X) (k : X -> M reply).

Record slice : Type := mkSlice {
  slice_end : paused;
  slice_store : store;
  slice_events : list event;
  slice_spawned : list task
}.

Definition handler {A} (p : M A) (f : A -> reply) : M reply := a <- p ;; ret (f a).

Definition code (cb : callback) : M reply :=
  match cb with
  | CbCheckForUpdates => handler checkForUpdates (fun _ => None)
  | CbProcessExit _ => ret None
  end.

Definition spawned_callback {X} (e : eff X) : option callback :=
  match e with Spawn cb => Some cb | _ => None end.

(** A callee called without [await] runs up to its own first [await];
    the callbacks of this module call nothing that way themselves. *)
Fixpoint advance_callee (w : env) (h : list event) (s : store) (p : M reply) : slice :=
  match p with
  | Ret a => mkSlice (Finished (inr a)) s [] []
  | Throw e => mkSlice (Finished (inl e)) s [] []
  | GetStore k => advance_callee w h s (k s)
  | PutStore s' k => advance_callee w h s' k
  | Vis e k =>
      if is_async e then mkSlice (Suspended e k) s [] []
      else
        let answer := w _ h e in
        let rest := advance_callee w (h ++ [Ev e answer]) s (k answer) in
        mkSlice (slice_end rest) (slice_store rest) (Ev e answer :: slice_events rest) []
  end.

Definition as_task (o : source) (p : paused) : list task :=
  match p with
  | Suspended e k => [mkTask o _ e k]
  | Finished _ => []
  end.

(** Runs a handler up to its next [await]. *)
Fixpoint advance (w : env) (h : list event) (s : store) (p : M reply) : slice :=
  match p with
  | Ret a => mkSlice (Finished (inr a)) s [] []
  | Throw e => mkSlice (Finished (inl e)) s [] []
  | GetStore k => advance w h s (k s)
  | PutStore s' k => advance w h s' k
  | Vis e k =>
      if is_async e then mkSlice (Suspended e k) s [] []
      else
        let answer := w _ h e in
        let h1 := (h ++ [Ev e answer])%list in
        match spawned_callback e with
        | Some cb =>
            let callee := advance_callee w h1 s (code cb) in
            let rest := advance w (h1 ++ slice_events callee) (slice_store callee) (k answer) in
            mkSlice (slice_end rest) (slice_store rest)
                    (Ev e answer :: slice_events callee ++ slice_events rest)
                    (as_task (FromSpawn cb) (slice_end callee) ++ slice_spawned rest)
        | None =>
            let rest := advance w h1 s (k answer) in
            mkSlice (slice_end rest) (slice_store rest) (Ev e answer :: slice_events rest)
                    (slice_spawned rest)
        end
  end.

Record server : Type := mkServer {
  mem : store;
  log : list event;
  pending : list task;
  intervals : list (nat * callback);
  sent : list (source * (JsError + reply))
}.

(** The interval timers after the events of a slice. *)
Definition register (ev : event) (timers : list (nat * callback)) : list (nat * callback) :=
  match ev_eff ev as e in eff X return X -> list (nat * callback) with
  | SetInterval cb _ => fun handle => (handle, cb) :: timers
  | ClearInterval handle => fun _ => filter (fun t => negb (Nat.eqb (fst t) handle)) timers
  | _ => fun _ => timers
  end (ev_ans ev).

Definition absorb (o : source) (sl : slice) (prefix : list event) (rest : list task)
    (srv : server) : server :=
  mkServer (slice_store sl)
           (log srv ++ prefix ++ slice_events sl)
           (rest ++ slice_spawned sl ++ as_task o (slice_end sl))
           (fold_left (fun timers ev => register ev timers) (slice_events sl) (intervals srv))
           (sent srv ++ match slice_end sl with
                        | Finished out => [(o, out)]
                        | Suspended _ _ => []
                        end).

Definition dispatch (w : env) (o : source) (p : M reply) (srv : server) : server :=
  absorb o (advance w (log srv) (mem srv) p) [] (pending srv) srv.

Inductive input : Type :=
| Request (o : source)
| TimerFires (handle : nat)
| Answer (i : nat).

Definition entry (o : source) : option (M reply) :=
  match o with
  | FromGET => Some (handler GET Some)
  | FromPOST request => Some (handler (POST request) Some)
  | FromTimer _ | FromSpawn _ => None
  end.

Fixpoint remove_nth {A} (i : nat) (l : list A) : list A :=
  match i, l with
  | _, [] => []
  | O, _ :: r => r
  | S j, x :: r => x :: remove_nth j r
  end.

Definition step (w : env) (srv : server) (i : input) : option server :=
  match i with
  | Request o =>
      match entry o with
      | Some p => Some (dispatch w o p srv)
      | None => None
      end
  | TimerFires handle =>
      match find (fun t => Nat.eqb (fst t) handle) (intervals srv) with
      | Some (_, cb) => Some (dispatch w (FromTimer handle) (code cb) srv)
      | None => None
      end
  | Answer i =>
      match nth_error (pending srv) i with
      | Some t =>
          let answer := w _ (log srv) (awaited t) in
          let ev := Ev (awaited t) answer in
          Some (absorb (origin t)
                       (advance w (log srv ++ [ev]) (mem srv) (resume t answer))
                       [ev] (remove_nth i (pending srv)) srv)
      | None => None
      end
  end.

Fixpoint steps (w : env) (srv : server) (inputs : list input) : option server :=
  match inputs with
  | [] => Some srv
  | i :: rest =>
      match step w srv i with
      | Some srv' => steps w srv' rest
      | None => None
      end
  end.

(** The server once the module is loaded: [initializeAutoUpdater()] has
    run up to the first [await] of its unawaited [checkForUpdates()]. *)
Definition boot (w : env) (loaded_at : string) : server :=
  let sl := advance w [] (initial_store loaded_at)
                    (handler initializeAutoUpdater (fun _ => None)) in
  mkServer (slice_store sl) (slice_events sl) (slice_spawned sl)
           (fold_left (fun timers ev => register ev timers) (slice_events sl) [])
           [].

Definition is_update (o : source) : bool :=
  match o with
  | FromPOST (inr (ReqObject (Some a))) => String.eqb a "update"
  | _ => false
  end.

(** The update procedures in progress: the suspended handlers of [update]
    commands ([POST] awaits nothing but [performUpdate]). *)
Definition updates_in_flight (srv : server) : nat :=
  length (filter (fun t => is_update (origin t)) (pending srv)).

(** A server with nothing in progress. *)
Definition idle (s : store) : server := mkServer s [] [] [] [].

Definition replies (srv : option server) : list (JsError + reply) :=
  match srv with Some x => map snd (sent x) | None => [] end.

Definition in_flight (srv : option server) : nat :=
  match srv with Some x => updates_in_flight x | None => 0 end.

(** An [update] command arrives. *)
Definition update : input := Request (FromPOST update_request).

End EventLoop.

(** ** Observations on the events of a run *)

Module Trace.

(** The answer to [fetch(url, { method })], when [ev] is such a call. *)
Definition fetch_answer (method url : string) (ev : event) : option (JsError + response) :=
  match ev_eff ev as e in eff X return X -> option (JsError + response) with
  | Fetch m u _ _ =>
      fun a => if String.eqb m method && String.eqb u url then Some a else None
  | _ => fun _ => None
  end (ev_ans ev).

Definition json_answer (ev : event) : option (JsError + feed_body) :=
  match ev_eff ev as e in eff X return X -> option (JsError + feed_body) with
  | ResponseJson => fun a => Some a
  | _ => fun _ => None
  end (ev_ans ev).

Definition version_answer (ev : event) : option (JsError + option string) :=
  match ev_eff ev as e in eff X return X -> option (JsError + option string) with
  | ReadPackageVersion _ => fun a => Some a
  | _ => fun _ => None
  end (ev_ans ev).

Definition console_line (ev : event) : option (level * list string) :=
  match ev_eff ev with
  | Console l args => Some (l, args)
  | _ => None
  end.

Fixpoint collect {A} (f : event -> option A) (t : list event) : list A :=
  match t with
  | [] => []
  | ev :: rest =>
      match f ev with
      | Some a => a :: collect f rest
      | None => collect f rest
      end
  end.

(** A fetch that rejected, or resolved with a status outside 200-299. *)
Definition unavailable (a : JsError + response) : bool :=
  match a with
  | inl _ => true
  | inr r => negb (ok r)
  end.

Definition rejected {A} (a : JsError + A) : bool :=
  match a with inl _ => true | inr _ => false end.

Definition probe_answers (t : list event) : list (JsError + response) :=
  collect (fetch_answer "HEAD" "https://www.google.com") t.

Definition feed_answers (t : list event) : list (JsError + response) :=
  collect (fetch_answer "GET" Route.GITHUB_API) t.

(** The number of network calls to the release feed. *)
Definition feed_fetches (t : list event) : nat := length (feed_answers t).

Definition probe_unavailable (t : list event) : bool :=
  existsb unavailable (probe_answers t).

(** The release-feed call failed: network error, status that is not 2xx,
    or a body that is not JSON. *)
Definition feed_call_failed (t : list event) : bool :=
  existsb unavailable (feed_answers t) || existsb rejected (collect json_answer t).

Definition console_lines (t : list event) : list (level * list string) :=
  collect console_line t.

(** [console.error(label, error)] is among the events. *)
Definition error_logged (label : string) (t : list event) : bool :=
  existsb (fun line =>
             match line with
             | (LError, first :: _) => String.eqb first label
             | _ => false
             end) (console_lines t).

(** What [getLocalVersion] makes of the answer to its read. *)
Definition local_version (a : JsError + option string) : option string :=
  match a with
  | inr v => if truthy_opt v then v else None
  | inl _ => None
  end.

(** A step of the update procedure failed: a fetch rejected or answered
    outside 200-299, the feed's body is not a release with a ZIP asset, a
    file operation threw, or a command ended with an error. *)
Definition has_zip_asset (body : feed_body) : bool :=
  match body with
  | BodyRelease rel =>
      match assets rel with
      | Some l => existsb (fun a => JsString.endsWith (asset_name a) ".zip") l
      | None => false
      end
  | BodyNull => false
  end.

Definition step_failed (ev : event) : bool :=
  match ev_eff ev as e in eff X return X -> bool with
  | Fetch _ _ _ _ => unavailable
  | ResponseJson =>
      fun a => match a with inl _ => true | inr body => negb (has_zip_asset body) end
  | ResponseArrayBuffer => rejected
  | MkdirSync _ => rejected
  | WriteFileSync _ _ => rejected
  | ReaddirSync _ => rejected
  | StatIsDirectory _ => rejected
  | RmSync _ => rejected
  | Exec _ _ _ => fun r => match err r with Some _ => true | None => false end
  | _ => fun _ => false
  end (ev_ans ev).

Definition update_failed (t : list event) : bool := existsb step_failed t.

(** The runs of the update procedure that were started. *)
Definition update_runs_started (t : list event) : nat :=
  length (filter (fun line =>
                    match line with
                    | (LLog, [text]) => String.eqb text "[updater] Starting update process..."
                    | _ => false
                    end) (console_lines t)).

(** Timers set and functions started in the background. *)
Definition schedules (ev : event) : bool :=
  match ev_eff ev with
  | SetTimeout _ _ | SetInterval _ _ | Spawn _ => true
  | _ => false
  end.

(** The check reached the assignment to [lastUpdateInfo]: the time stamp
    is taken right there and nowhere else. *)
Definition recorded (t : list event) : bool :=
  existsb (fun ev => match ev_eff ev with Now => true | _ => false end) t.

(** [setTimeout(() => process.exit(...), ...)] was called. *)
Definition restart_scheduled (t : list event) : bool :=
  existsb (fun ev =>
             match ev_eff ev with
             | SetTimeout (CbProcessExit _) _ => true
             | _ => false
             end) t.

(** Effects that change something outside the process's memory: the file
    system, child processes, timers, user callbacks. *)
Definition mutates (ev : event) : bool :=
  match ev_eff ev with
  | MkdirSync _ | WriteFileSync _ _ | RmSync _ | Exec _ _ _
  | SetTimeout _ _ | SetInterval _ _ | ClearInterval _ | Spawn _ | Hook _ => true
  | _ => false
  end.

Definition side_effects (t : list event) : list event := filter mutates t.

End Trace.

(** ** Scenarios *)

Module Scenario.

Definition boot_store : Route.store := Route.initial_store "boot".

(** The probe cannot reach the network. *)
Definition offline : world :=
  with_probe (inl (mkError "fetch failed"))
             (online (titled (JStr "Release (v1.2.1)") (JStr "v1.2.1")) (Some "1.2.0")).

(** The release feed cannot be reached although the probe succeeds. *)
Definition feed_down : world :=
  with_feed (inl (mkError "ECONNRESET"))
            (online (titled (JStr "Release (v1.2.1)") (JStr "v1.2.1")) (Some "1.2.0")).

(** Local version 1.2.0, feed title "Release (v1.2.1)". *)
Definition newer_release : world :=
  online (titled (JStr "Release (v1.2.1)") JUndefined) (Some "1.2.0").

(** Local version 1.2.0, a title without a version, tag v1.2.0. *)
Definition same_tag : world :=
  online (titled (JStr "Nightly build") (JStr "v1.2.0")) (Some "1.2.0").

(** Local version 1.2.0, a title without a version, tag v1.2.1. *)
Definition newer_tag : world :=
  online (titled (JStr "Nightly build") (JStr "v1.2.1")) (Some "1.2.0").

(** Local version 1.2.0, a title without a version, and the tag "v". *)
Definition bare_tag : world :=
  online (titled (JStr "Nightly build") (JStr "v")) (Some "1.2.0").

(** Local version 1.2.0, a title without a version, and no tag. *)
Definition untagged_nightly : world :=
  online (titled (JStr "Nightly build") JNull) (Some "1.2.0").

(** Local version 1.2.0, the release rolled back to 1.1.9. *)
Definition rollback : world :=
  online (titled (JStr "Rollback (v1.1.9)") (JStr "v1.1.9")) (Some "1.2.0").

(** [package.json] cannot be read; the feed publishes 1.2.1. *)
Definition unreadable_package : world :=
  let x := online (titled (JStr "Release (v1.2.1)") (JStr "v1.2.1")) None in
  {| w_probe := w_probe x; w_feed_url := w_feed_url x; w_feed := w_feed x; w_json := w_json x;
     w_download := w_download x; w_bytes := w_bytes x;
     w_version := inl (mkError "ENOENT: no such file or directory");
     w_exists := w_exists x; w_mkdir := w_mkdir x; w_write := w_write x;
     w_readdir := w_readdir x; w_isdir := w_isdir x; w_rm := w_rm x; w_exec := w_exec x;
     w_node_env := w_node_env x; w_cwd := w_cwd x; w_now := w_now x;
     w_handle := w_handle x; w_hook := w_hook x |}.

(** Local version 1.2.0, release 1.2.1 in title and tag. *)
Definition release_121 : world :=
  online (titled (JStr "Release (v1.2.1)") (JStr "v1.2.1")) (Some "1.2.0").

(** [git pull] has run. *)
Definition pulled (t : list event) : bool :=
  existsb (fun ev => match ev_eff ev with
                     | Exec cmd _ _ => String.eqb cmd "git pull"
                     | _ => false
                     end) t.

(** [package.json] has version 1.2.0 until [git pull] has run, and 1.2.1
    from then on; the feed publishes 1.2.1. *)
Definition pulling : env :=
  fun X h e =>
    match e in eff X return X with
    | ReadPackageVersion _ => inr (Some (if pulled h then "1.2.1" else "1.2.0"))
    | e' => env_of release_121 _ h e'
    end.

Definition updater : Updater.NextJSUpdater :=
  Updater.mkUpdater Route.REPO Route.GITHUB_API "C:/orbis/package.json" 3600000
                    false false false.

(** The download of the bundle answers 404. *)
Definition download_missing : world :=
  with_download (inr (mkResponse 404 "Not Found"))
                (online (titled (JStr "Release (v1.2.1)") (JStr "v1.2.1")) (Some "1.2.0")).

End Scenario.

(** ** The version pattern as the specification words it *)

Module Claimed.

(** [(vMAJOR.MINOR.PATCH[.BUILD])]: the [v] is part of the token. *)
Definition token_here (s v : string) : Prop :=
  JsString.version v /\ exists rest, s = "(v" ++ v ++ ")" ++ rest.

Definition token_in (s v : string) : Prop :=
  exists before after, s = before ++ after /\ token_here after v.

(** [needle] occurs in [s]. *)
Fixpoint occurs (needle s : string) : bool :=
  prefix needle s ||
  match s with
  | String _ r => occurs needle r
  | EmptyString => false
  end.

(** Local version 2.0.0; the title has a version in parentheses without
    the [v], and the tag is v2.0.0. *)
Definition unprefixed : world :=
  online (titled (JStr "Build (1.0.0)") (JStr "v2.0.0")) (Some "2.0.0").

End Claimed.

(** ** Further requests and observations *)

Module Observe.

Import Route.

(** The commands [{ action: 'start' }] and [{ action: 'stop' }]. *)
Definition start_request : NextRequest := inr (ReqObject (Some "start")).
Definition stop_request : NextRequest := inr (ReqObject (Some "stop")).

(** The [action] is one of the four cases of the [switch]. *)
Definition supported (action : option string) : bool :=
  action_is action "start" || action_is action "stop" ||
  action_is action "check" || action_is action "update".

(** What a handler does to timers and background work. *)
Inductive timer_op : Type :=
| OpClear (handle : nat)
| OpSetInterval (cb : callback) (ms : N) (handle : nat)
| OpSetTimeout (cb : callback) (ms : N) (handle : nat)
| OpSpawn (cb : callback).

Definition timer_op_of (ev : event) : option timer_op :=
  match ev_eff ev as e in eff X return X -> option timer_op with
  | ClearInterval handle => fun _ => Some (OpClear handle)
  | SetInterval cb ms => fun handle => Some (OpSetInterval cb ms handle)
  | SetTimeout cb ms => fun handle => Some (OpSetTimeout cb ms handle)
  | Spawn cb => fun _ => Some (OpSpawn cb)
  | _ => fun _ => None
  end (ev_ans ev).

Definition timer_ops (t : list event) : list timer_op := Trace.collect timer_op_of t.

(** What the handler waited for: network calls and child processes. *)
Definition awaits (t : list event) : list event :=
  filter (fun ev => is_async (ev_eff ev)) t.

(** The handle in [checkInterval], as the list of handles to clear. *)
Definition active_handle (s : store) : list nat :=
  match checkInterval s with
  | Some handle => [handle]
  | None => []
  end.




(** The addresses fetched, in order. *)
Definition fetch_url (ev : event) : option string :=
  match ev_eff ev with
  | Fetch _ url _ _ => Some url
  | _ => None
  end.

Definition fetched (t : list event) : list string := Trace.collect fetch_url t.

(** [assets.find(asset => asset.name.endsWith('.zip'))]. *)
Definition zip_asset (rel : release) : option asset :=
  match assets rel with
  | Some l => find (fun a => JsString.endsWith (asset_name a) ".zip") l
  | None => None
  end.

(** The release feed answers with the JSON [null]. *)
Definition no_release : world := online BodyNull (Some "1.2.0").

End Observe.

(** ** The steps of an update *)

Module Steps.







(** The commands run, with whether each ended without an error. *)
Definition command_of (ev : event) : option (string * bool) :=
  match ev_eff ev as e in eff X return X -> option (string * bool) with
  | Exec cmd _ _ => fun r => Some (cmd, match err r with Some _ => false | None => true end)
  | _ => fun _ => None
  end (ev_ans ev).

Definition commands (t : list event) : list (string * bool) := Trace.collect command_of t.

(** The commands of the source-control update procedure, in order. *)
Definition pull_plan : list string :=
  ["git pull"; "npm install --no-audit --no-fund"; "npm run build"; "pm2 restart orbis-ship"].

(** A user callback threw. *)
Definition hook_threw (ev : event) : bool :=
  match ev_eff ev as e in eff X return X -> bool with
  | Hook _ => Trace.rejected
  | _ => fun _ => false
  end (ev_ans ev).

(** Step 4 of the source-control update procedure: the inner [try] around
    the restart by PM2. *)
Definition restart_step (this : Updater.NextJSUpdater) : Updater.M unit :=
  try_catch
    (pbind (Updater.runCommand this "pm2 restart orbis-ship")
           (fun _ => console LLog ["[updater] PM2 restart completed"]))
    (fun pm2Error =>
       pbind (console LWarn ["[updater] PM2 restart failed. Application may need manual restart."])
         (fun _ =>
            pbind (console LWarn ["[updater] PM2 Error:"; message pm2Error])
              (fun _ =>
                 pbind (perform NodeEnv)
                   (fun node_env =>
                      if strict_neq node_env (Some "production") then Ret tt
                      else
                        pbind (console LLog ["[updater] Exiting process for external restart..."])
                          (fun _ =>
                             pbind (perform (SetTimeout (CbProcessExit 0) 2000%N))
                               (fun _ => Ret tt)))))).

(** [process.env.NODE_ENV] was read as [production]. *)
Definition in_production (ev : event) : bool :=
  match ev_eff ev as e in eff X return X -> bool with
  | NodeEnv => fun v => negb (strict_neq v (Some "production"))
  | _ => fun _ => false
  end (ev_ans ev).

(** [pm2] is not installed: its command ends with an error, every other
    command succeeds. *)
Definition without_pm2 : world :=
  let x := online (titled (JStr "Release (v1.2.1)") (JStr "v1.2.1")) (Some "1.2.0") in
  {| w_probe := w_probe x; w_feed_url := w_feed_url x; w_feed := w_feed x; w_json := w_json x;
     w_download := w_download x; w_bytes := w_bytes x; w_version := w_version x;
     w_exists := w_exists x; w_mkdir := w_mkdir x; w_write := w_write x;
     w_readdir := w_readdir x; w_isdir := w_isdir x; w_rm := w_rm x;
     w_exec := fun cmd =>
                 if prefix "pm2" cmd then mkExec (Some (mkError "pm2: command not found")) "" ""
                 else mkExec None "" "";
     w_node_env := w_node_env x; w_cwd := w_cwd x; w_now := w_now x;
     w_handle := w_handle x; w_hook := w_hook x |}.

End Steps.

(** ** Timers and the module variables *)

Module Timers.

Import Route EventLoop.

(** The interval timers the module variables account for. *)
Definition registered (c : option nat) : list (nat * callback) :=
  match c with
  | Some handle => [(handle, CbCheckForUpdates)]
  | None => []
  end.

(** The program [p], started with the timers [T] set and with [c] in
    [checkInterval], keeps the two in step: they agree whenever it awaits
    (whatever consistent state it then resumes from), and [Post] holds
    when it ends.  [Q] is asked of the functions it calls without
    [await]. *)
Fixpoint keeps {A} (Q : callback -> Prop)
    (Post : JsError + A -> list (nat * callback) -> option nat -> Prop)
    (T : list (nat * callback)) (c : option nat) (p : prog store A) : Prop :=
  match p with
  | Ret a => Post (inr a) T c
  | Throw e => Post (inl e) T c
  | GetStore k => forall s, checkInterval s = c -> keeps Q Post T c (k s)
  | PutStore s' k => keeps Q Post T (checkInterval s') k
  | Vis e k =>
      forall x,
        if is_async e
        then T = registered c /\ forall c2, keeps Q Post (registered c2) c2 (k x)
        else match spawned_callback e with
             | Some cb => Q cb
             | None => True
             end /\ keeps Q Post (register (Ev e x) T) c (k x)
  end.

Definition in_step {A} (_ : JsError + A) (T : list (nat * callback)) (c : option nat) : Prop :=
  T = registered c.

(** Up to its first [await] the program writes no module variable, sets
    and clears no timer and calls nothing in the background; from there on
    it keeps timers and [checkInterval] in step. *)
Fixpoint calm {A} (p : prog store A) : Prop :=
  match p with
  | Ret _ | Throw _ => True
  | GetStore k => forall s, calm (k s)
  | PutStore _ _ => False
  | Vis e k =>
      forall x,
        if is_async e
        then forall c2, keeps (fun _ => False) in_step (registered c2) c2 (k x)
        else (forall T, register (Ev e x) T = T) /\ spawned_callback e = None /\ calm (k x)
  end.

Definition calm_callee (cb : callback) : Prop := calm (code cb).

(** A suspended handler resumes safely from every consistent state. *)
Definition task_ok (t : task) : Prop :=
  forall x c, keeps calm_callee in_step (registered c) c (resume t x).

(** The invariant of the server. *)
Definition consistent (srv : server) : Prop :=
  intervals srv = registered (checkInterval (mem srv)).

Definition invariant (srv : server) : Prop :=
  consistent srv /\ Forall task_ok (pending srv).

Definition timers_after (t : list event) (T : list (nat * callback)) : list (nat * callback) :=
  fold_left (fun timers ev => register ev timers) t T.

(** A session: the updater is started again while the first check is in
    progress, stopped, started once more, and asked for its status. *)
Definition session : list input :=
  [ Request (FromPOST Observe.start_request); Answer 0;
    Request (FromPOST Observe.stop_request);
    Request (FromPOST Observe.start_request); Request FromGET ].

End Timers.

(** * Properties *)

(** ** Runs, step by step *)

Section RunLemmas.

Context {S : Type}.

Lemma run_vis {A X} (w : env) h (s : S) (e : eff X) (k : X -> prog S A) :
  run w h s (Vis e k) = emit (Ev e (w _ h e)) (run w (h ++ [Ev e (w _ h e)]) s (k (w _ h e))).
Proof. reflexivity. Qed.

Lemma run_ret {A} (w : env) h (s : S) (a : A) : run w h s (Ret a) = mkResult (inr a) s [].
Proof. reflexivity. Qed.

Lemma run_throw {A} (w : env) h (s : S) (e : JsError) :
  run w h s (Throw e : prog S A) = mkResult (inl e) s [].
Proof. reflexivity. Qed.

Lemma run_get {A} (w : env) h (s : S) (k : S -> prog S A) :
  run w h s (GetStore k) = run w h s (k s).
Proof. reflexivity. Qed.

Lemma run_put {A} (w : env) h (s s' : S) (k : prog S A) :
  run w h s (PutStore s' k) = run w h s' k.
Proof. reflexivity. Qed.

(** [p] then [f]: [f] starts from the store and the history [p] leaves. *)
Lemma run_bind {A B} (w : env) (p : prog S A) (f : A -> prog S B) : forall h s,
  run w h s (pbind p f) =
  let r := run w h s p in
  match outcome r with
  | inr a =>
      let r' := run w (h ++ events r) (final r) (f a) in
      mkResult (outcome r') (final r') (events r ++ events r')
  | inl e => mkResult (inl e) (final r) (events r)
  end.
Proof.
  induction p as [a|e|k IH|s' k IH|X e k IH]; intros h s; cbn.
  - rewrite app_nil_r. destruct (run w h s (f a)); reflexivity.
  - reflexivity.
  - apply IH.
  - apply IH.
  - rewrite IH. cbn.
    destruct (outcome (run w (h ++ [Ev e (w X h e)]) s (k (w X h e)))); cbn.
    + reflexivity.
    + rewrite <- app_assoc. reflexivity.
Qed.

(** A handler starts from the store and the history the body leaves. *)
Lemma run_try_catch {A} (w : env) (p : prog S A) (c : JsError -> prog S A) : forall h s,
  run w h s (try_catch p c) =
  let r := run w h s p in
  match outcome r with
  | inr a => r
  | inl e =>
      let r' := run w (h ++ events r) (final r) (c e) in
      mkResult (outcome r') (final r') (events r ++ events r')
  end.
Proof.
  induction p as [a|e|k IH|s' k IH|X e k IH]; intros h s; cbn.
  - reflexivity.
  - rewrite app_nil_r. destruct (run w h s (c e)); reflexivity.
  - apply IH.
  - apply IH.
  - rewrite IH. cbn.
    destruct (outcome (run w (h ++ [Ev e (w X h e)]) s (k (w X h e)))) eqn:E; cbn.
    + rewrite <- app_assoc. reflexivity.
    + unfold emit. rewrite E. reflexivity.
Qed.

(** A body that starts with [p], inside a [try]. *)
Lemma run_catch_bind {A B} (w : env) (p : prog S A) (k : A -> prog S B)
    (c : JsError -> prog S B) : forall h s,
  run w h s (try_catch (pbind p k) c) =
  let rp := run w h s p in
  after (events rp)
    (run w (h ++ events rp) (final rp)
       (match outcome rp with
        | inl e => c e
        | inr a => try_catch (k a) c
        end)).
Proof.
  intros h s. rewrite run_try_catch, run_bind. cbn zeta.
  destruct (run w h s p) as [[e|a] f t]; cbn [outcome events final].
  - reflexivity.
  - rewrite run_try_catch. cbn zeta.
    destruct (run w (h ++ t) f (k a)) as [[e'|b] f' t']; unfold after;
      cbn [outcome events final].
    + rewrite <- !app_assoc. reflexivity.
    + reflexivity.
Qed.

End RunLemmas.

(** ** Symbolic runs

    A hypothesis [H : r = run w h s p] is advanced one effect at a time;
    every answer of the environment becomes a variable, and the run splits
    where the program inspects one. *)

#[local] Arguments run : simpl never.
#[local] Arguments emit : simpl never.
#[local] Arguments after : simpl never.

Ltac split_on x := first [ is_var x; destruct x | destruct x eqn:? ].

Ltac split_blocked H :=
  match type of H with
  | context [run _ _ _ ?p] =>
      match p with
      | context [match ?x with inl _ => _ | inr _ => _ end] => split_on x
      | context [if negb ?b then _ else _] => split_on b
      | context [if ?b then _ else _] => split_on b
      | context [match ?x with Some _ => _ | None => _ end] => split_on x
      | context [match ?x with BodyNull => _ | BodyRelease _ => _ end] => split_on x
      | context [match ?x with
                 | JUndefined => _ | JNull => _ | JStr _ => _ | JOther _ _ => _
                 end] => split_on x
      end
  end.

Ltac run_step H :=
  first
    [ rewrite run_ret in H
    | rewrite run_throw in H
    | rewrite run_get in H
    | rewrite run_put in H
    | match type of H with
      | context [run ?w ?h ?s (Vis ?e ?k)] =>
          rewrite (run_vis w h s e k) in H;
          let a := fresh "a" in
          set (a := w _ h e) in H; clearbody a;
          try match type of a with unit => destruct a end
      end
    | progress unfold perform, console, attempt, throwing in H
    | split_blocked H ];
  cbn in H.

Ltac run_all H := cbn in H; repeat run_step H.

(** The finished run, as a record of its outcome, store and events. *)
Ltac run_done H r :=
  cbv [emit after outcome final events] in H; subst r; cbn [outcome final events].

Section CheckForUpdates.

Import Route Trace.

(** Everything the properties below need about one run of
    [checkForUpdates], for every environment. *)
Lemma checkForUpdates_run (w : env) (h : list event) (s : store) :
  let r := run w h s checkForUpdates in
  let t := events r in
  outcome r = inr tt /\
  feed_fetches t <= 1 /\
  filter schedules t = [] /\
  (probe_unavailable t = true -> feed_fetches t = 0) /\
  (feed_call_failed t = true ->
   error_logged "[updater] Update check failed:" t = true) /\
  (probe_unavailable t = true \/ feed_call_failed t = true -> recorded t = false) /\
  (recorded t = false -> final r = s) /\
  (recorded t = true ->
   exists rel a now fromName latest,
     collect json_answer t = [inr (BodyRelease rel)] /\
     collect version_answer t = [a] /\
     version_from_name (name rel) = inr fromName /\
     fallback_to_tag fromName (tag_name rel) = inr latest /\
     final r = set_lastUpdateInfo
                 (mkUpdateInfo (truthy_opt latest && strict_neq (local_version a) latest)
                               (local_version a) latest now (name rel)) s) /\
  (forall rel fromName latest,
     collect json_answer t = [inr (BodyRelease rel)] ->
     version_from_name (name rel) = inr fromName ->
     fallback_to_tag fromName (tag_name rel) = inr latest ->
     recorded t = true).
Proof.
  intros r. assert (H : r = run w h s checkForUpdates) by reflexivity. clearbody r.
  unfold checkForUpdates, isInternetAvailable, getLocalVersion, assign, property in H.
  run_all H.
  all: run_done H r.
  all: unfold feed_fetches, feed_answers, probe_unavailable, probe_answers,
         feed_call_failed, error_logged, console_lines, recorded; cbn.
  all: repeat match goal with E : ok _ = _ |- _ => rewrite ?E; clear E end; cbn.
  all: repeat match goal with |- _ /\ _ => split end;
       try reflexivity; try lia; try discriminate; auto.
  all: try (intros; congruence).
  all: try (intros [?|?]; congruence).
  all: intros _; do 5 eexists; repeat split; try reflexivity; try eassumption.
  all: unfold local_version, set_lastUpdateInfo, set_updateAvailable; cbn.
  all: repeat match goal with o : option string |- _ => destruct o end;
       cbn in *; try discriminate; try reflexivity.
  all: repeat (cbn; match goal with E : ?x = _ |- context [?x] => rewrite E end);
       reflexivity.
  Unshelve. all: exact EmptyString.
Qed.

End CheckForUpdates.


(** ** The version pattern *)

Section Pattern.

Import JsString.

Lemma string_app_assoc (a b c : string) : (a ++ b) ++ c = a ++ b ++ c.
Proof. induction a as [|x a IH]; cbn; [reflexivity | now rewrite IH]. Qed.

Ltac flatten := cbn; repeat (rewrite string_app_assoc; cbn).

Lemma digits_split (s : string) :
  s = fst (digits s) ++ snd (digits s) /\
  all_digits (fst (digits s)) = true /\
  no_digit_ahead (snd (digits s)).
Proof.
  induction s as [|c r IH]; cbn.
  - auto.
  - destruct (is_digit c) eqn:D.
    + destruct (digits r) as [d r']. cbn in *.
      destruct IH as (E & A & N). rewrite D, A. repeat split; auto.
      now rewrite E at 1.
    + cbn. auto.
Qed.

Lemma digits_app (a r : string) :
  all_digits a = true -> no_digit_ahead r -> digits (a ++ r) = (a, r).
Proof.
  intros A N. induction a as [|c a IH]; cbn in *.
  - destruct r as [|c r]; cbn in *; [reflexivity | now rewrite N].
  - apply andb_true_iff in A as [D A]. rewrite D, (IH A). reflexivity.
Qed.

Lemma expect_some {A} (c : ascii) (s : string) (k : string -> option A) (v : A) :
  expect c s k = Some v <-> exists r, s = String c r /\ k r = Some v.
Proof.
  unfold expect. destruct s as [|c' r].
  - split; [discriminate | intros (r & E & _); discriminate].
  - destruct (Ascii.eqb_spec c c') as [->|N].
    + split; [eauto | intros (r' & E & K); now injection E as ->].
    + split; [discriminate | intros (r' & E & _); congruence].
Qed.

Lemma digits1_some {A} (s : string) (k : string -> string -> option A) (v : A) :
  digits1 s k = Some v <->
  exists d r, s = d ++ r /\ number d /\ no_digit_ahead r /\ k d r = Some v.
Proof.
  unfold digits1. pose proof (digits_split s) as (E & A' & N).
  destruct (digits s) as [d r] eqn:D. cbn in *. split.
  - destruct (truthy d) eqn:T; [|discriminate]. intros K.
    exists d, r. unfold number. auto.
  - intros (d' & r' & E' & (T & A'') & N' & K).
    rewrite E', (digits_app d' r' A'' N') in D. injection D as <- <-.
    now rewrite T.
Qed.

Lemma optional_v_inv (s : string) : s = optional_v s \/ s = String "v" (optional_v s).
Proof.
  destruct s as [|c r]; [now left|].
  destruct (Ascii.eqb_spec c "v") as [->|N]; [now right|].
  left. destruct c as [[] [] [] [] [] [] [] []]; try reflexivity. now elim N.
Qed.

Lemma optional_v_number (d r : string) : number d -> optional_v (d ++ r) = d ++ r.
Proof.
  intros (T & A). destruct d as [|c d]; [discriminate|].
  cbn in A. apply andb_true_iff in A as [D _].
  destruct c as [[] [] [] [] [] [] [] []]; try reflexivity. discriminate.
Qed.

Lemma tail_of_patch {A} (s7 : string) (k3 k4 : option A) (K : string -> option A) (v : A) :
  match s7 with
  | String "." s8 => K s8
  | _ => expect ")" s7 (fun _ => k3)
  end = Some v ->
  (exists s8, s7 = String "." s8 /\ K s8 = Some v) \/
  (exists rest, s7 = String ")" rest /\ k3 = Some v).
Proof.
  destruct s7 as [|c s8].
  - discriminate.
  - destruct (Ascii.eqb_spec c ".") as [->|N].
    + intros H. left. eauto.
    + intros H. right.
      assert (H' : expect ")" (String c s8) (fun _ => k3) = Some v).
      { destruct c as [[] [] [] [] [] [] [] []]; try exact H. now elim N. }
      apply expect_some in H' as (rest & E & H'). eauto.
Qed.

Lemma match_here_sound (s v : string) : match_here s = Some v -> token_here s v.
Proof.
  unfold match_here, token_here, version. intros H.
  apply expect_some in H as (s1 & -> & H).
  apply digits1_some in H as (major & s3 & E2 & Nmaj & _ & H).
  apply expect_some in H as (s4 & -> & H).
  apply digits1_some in H as (minor & s5 & -> & Nmin & _ & H).
  apply expect_some in H as (s6 & -> & H).
  apply digits1_some in H as (patch & s7 & -> & Npat & N7 & H).
  apply (tail_of_patch s7 _ None) in H as [(s8 & -> & H) | (rest & -> & H)].
  - apply digits1_some in H as (build & s9 & -> & Nb & _ & H).
    apply expect_some in H as (rest & -> & H). injection H as <-.
    split.
    + exists major, minor, patch. repeat split; try apply Nmaj; try apply Nmin; try apply Npat.
      right. exists build. auto.
    + exists rest.
      destruct (optional_v_inv s1) as [-> | ->]; [left | right]; rewrite E2;
        flatten; reflexivity.
  - injection H as <-. split.
    + exists major, minor, patch. repeat split; try apply Nmaj; try apply Nmin; try apply Npat.
      now left.
    + exists rest.
      destruct (optional_v_inv s1) as [-> | ->]; [left | right]; rewrite E2;
        flatten; reflexivity.
Qed.

Lemma match_here_complete (s v : string) : token_here s v -> match_here s = Some v.
Proof.
  unfold match_here, token_here, version.
  intros ((major & minor & patch & Nmaj & Nmin & Npat & V) & rest & S).
  assert (exists tail, v ++ ")" ++ rest = major ++ "." ++ minor ++ "." ++ patch ++ tail /\
                       (tail = ")" ++ rest /\ v = major ++ "." ++ minor ++ "." ++ patch \/
                        exists build, number build /\ tail = "." ++ build ++ ")" ++ rest /\
                          v = major ++ "." ++ minor ++ "." ++ patch ++ "." ++ build))
    as (tail & E & T).
  { destruct V as [-> | (build & Nb & ->)].
    - exists (")" ++ rest). split; [flatten; reflexivity | now left].
    - exists ("." ++ build ++ ")" ++ rest). split; [flatten; reflexivity|].
      right. exists build. auto. }
  assert (exists s1, s = String "(" s1 /\ optional_v s1 = v ++ ")" ++ rest) as (s1 & -> & O).
  { destruct S as [-> | ->].
    - exists (v ++ ")" ++ rest). split; [reflexivity|].
      rewrite E. apply optional_v_number, Nmaj.
    - exists (String "v" (v ++ ")" ++ rest)). split; reflexivity. }
  apply expect_some. exists s1. split; [reflexivity|]. rewrite O, E.
  apply digits1_some. exists major. eexists. split; [reflexivity|].
  repeat split; try apply Nmaj.
  apply expect_some. eexists. split; [reflexivity|].
  apply digits1_some. exists minor. eexists. split; [reflexivity|].
  repeat split; try apply Nmin.
  apply expect_some. eexists. split; [reflexivity|].
  apply digits1_some. exists patch. exists tail. split; [reflexivity|].
  destruct T as [(-> & ->) | (build & Nb & -> & ->)].
  - repeat split; try apply Npat. 
  - repeat split; try apply Npat. cbn.
    apply digits1_some. exists build. eexists. split; [reflexivity|].
    repeat split; try apply Nb.
Qed.

Lemma match_version_cons (c : ascii) (r : string) :
  match_version (String c r) =
  match match_here (String c r) with
  | Some v => Some v
  | None => match_version r
  end.
Proof. reflexivity. Qed.

Lemma match_version_sound (s v : string) : match_version s = Some v -> token_in s v.
Proof.
  induction s as [|c r IH].
  - discriminate.
  - rewrite match_version_cons.
    destruct (match_here (String c r)) as [v'|] eqn:M.
    + intros E. injection E as ->. exists "", (String c r). split; [reflexivity|].
      now apply match_here_sound.
    + intros E. destruct (IH E) as (before & after & -> & T).
      exists (String c before), after. split; [reflexivity | exact T].
Qed.

Lemma match_version_complete (s v : string) :
  token_in s v -> exists v', match_version s = Some v'.
Proof.
  intros (before & after & -> & T). induction before as [|c b IH].
  - apply match_here_complete in T. change ("" ++ after) with after.
    destruct after as [|c r]; [discriminate|].
    rewrite match_version_cons, T. eauto.
  - change (String c b ++ after) with (String c (b ++ after)).
    rewrite match_version_cons.
    destruct (match_here (String c (b ++ after))); eauto.
Qed.

Lemma match_version_none (s : string) :
  match_version s = None <-> forall v, ~ token_in s v.
Proof.
  split.
  - intros N v T. destruct (match_version_complete s v T) as (v' & E). congruence.
  - intros N. destruct (match_version s) as [v|] eqn:E; [|reflexivity].
    elim (N v). now apply match_version_sound.
Qed.

(** [match] returns the leftmost match: no token starts before the one
    whose version is captured. *)
Lemma match_version_leftmost (s v : string) :
  match_version s = Some v ->
  exists before after,
    s = before ++ after /\ token_here after v /\
    forall b a v', s = b ++ a -> String.length b < String.length before ->
                   ~ token_here a v'.
Proof.
  induction s as [|c r IH].
  - discriminate.
  - rewrite match_version_cons.
    destruct (match_here (String c r)) as [v'|] eqn:M.
    + intros E. injection E as ->. exists "", (String c r).
      split; [reflexivity|]. split; [now apply match_here_sound|].
      intros b a v' _ L. cbn in L. lia.
    + intros E. destruct (IH E) as (before & after & -> & T & Least).
      exists (String c before), after. split; [reflexivity|]. split; [exact T|].
      intros b a v' S L. destruct b as [|c' b].
      * cbn in S. subst a. intros T'. apply match_here_complete in T'. congruence.
      * cbn in S. injection S as -> S. cbn in L.
        apply (Least b a v' S). lia.
Qed.

End Pattern.

(** ** The check *)

Section Check.

Import Route Trace.

Lemma version_truthy (v : string) : JsString.version v -> JsString.truthy v = true.
Proof.
  intros (major & minor & patch & (T & _) & _ & _ & V).
  destruct major as [|c m]; [discriminate|].
  destruct V as [-> | (build & _ & ->)]; reflexivity.
Qed.

Lemma match_version_truthy (title v : string) :
  JsString.match_version title = Some v ->
  JsString.truthy title = true /\ JsString.truthy v = true.
Proof.
  intros E. split.
  - destruct title; [discriminate | reflexivity].
  - apply match_version_sound in E as (_ & _ & _ & V & _). now apply version_truthy.
Qed.

(** What a check records once the feed has delivered the release [rel]
    and the version was extracted without a type error. *)
Lemma checkForUpdates_records (w : env) (h : list event) (s : store)
    (rel : release) (fromName latest : option string) :
  let r := run w h s checkForUpdates in
  collect json_answer (events r) = [inr (BodyRelease rel)] ->
  version_from_name (name rel) = inr fromName ->
  fallback_to_tag fromName (tag_name rel) = inr latest ->
  outcome r = inr tt /\
  exists a now,
    collect version_answer (events r) = [a] /\
    final r = set_lastUpdateInfo
                (mkUpdateInfo (truthy_opt latest && strict_neq (local_version a) latest)
                              (local_version a) latest now (name rel)) s.
Proof.
  intros r J N T.
  destruct (checkForUpdates_run w h s) as (O & _ & _ & _ & _ & _ & _ & K & C).
  fold r in O, K, C. cbn zeta in *.
  split; [exact O|].
  destruct (K (C rel fromName latest J N T))
    as (rel' & a & now & fromName' & latest' & J' & V' & N' & T' & F).
  rewrite J in J'. injection J' as <-.
  rewrite N in N'. injection N' as <-.
  rewrite T in T'. injection T' as <-.
  eauto.
Qed.

(** A recorded result compares the two versions it shows. *)
Lemma checkForUpdates_compares (w : env) (h : list event) (s : store) :
  let r := run w h s checkForUpdates in
  let i := lastUpdateInfo (final r) in
  recorded (events r) = true ->
  updateAvailable i =
    truthy_opt (latestVersion i) && strict_neq (localVersion i) (latestVersion i) /\
  exists a, collect version_answer (events r) = [a] /\ localVersion i = local_version a.
Proof.
  intros r i R.
  destruct (checkForUpdates_run w h s) as (_ & _ & _ & _ & _ & _ & _ & K & _).
  fold r in K. cbn zeta in K.
  destruct (K R) as (rel & a & now & fromName & latest & _ & V & _ & _ & F).
  subst i. rewrite F. cbn. eauto.
Qed.

Lemma POST_check_run (w : env) (h : list event) (s : store) :
  let r := run w h s checkForUpdates in
  run w h s (POST check_request) =
  mkResult (inr (mkHttp 200 true
                   (CheckData "Update check completed" (lastUpdateInfo (final r)))))
           (final r) (events r).
Proof.
  intros r.
  change (POST check_request) with
    (try_catch
       (pbind checkForUpdates
              (fun _ => GetStore (fun s' =>
                 Ret (mkHttp 200 true
                        (CheckData "Update check completed" (lastUpdateInfo s'))))))
       (fun error =>
          pbind (console LError ["Updater action error:"; message error])
                (fun _ => Ret (mkHttp 500 false
                                 (ErrorData ("Updater action failed: " ++ message error)))))).
  rewrite run_try_catch, run_bind. cbn zeta. fold r.
  destruct (checkForUpdates_run w h s) as (O & _). fold r in O.
  rewrite O. cbn. rewrite app_nil_r. reflexivity.
Qed.

End Check.

(** C2, as the claim states it, fails: with the probe unavailable a manual
    [check] command makes no call to the release feed either. *)
Lemma manual_check_offline_skips_feed :
  let r := run (env_of Scenario.offline) [] Scenario.boot_store
               (Route.POST Route.check_request) in
  Trace.probe_unavailable (events r) = true /\ Trace.feed_fetches (events r) = 0.
Proof. vm_compute. split; reflexivity. Qed.

(** C2 (amended): whenever the connectivity probe reports unavailable, neither
    the timer-driven check nor a manually triggered [check] command calls the
    release feed; the manual check runs its own probe and answers
    "Update check completed" with the last update info unchanged. *)
Theorem offline_check_makes_no_feed_call (w : env) (h : list event) (s : Route.store) :
  let tick := run w h s Route.scheduled_tick in
  let manual := run w h s (Route.POST Route.check_request) in
  Trace.probe_unavailable (events tick) = true ->
  Trace.feed_fetches (events tick) = 0 /\
  Trace.probe_unavailable (events manual) = true /\
  Trace.feed_fetches (events manual) = 0 /\
  outcome manual =
    inr (Route.mkHttp 200 true
           (Route.CheckData "Update check completed" (Route.lastUpdateInfo s))).
Proof.
  intros tick manual P. subst tick manual. rewrite POST_check_run. cbn [events outcome].
  unfold Route.scheduled_tick in *.
  destruct (checkForUpdates_run w h s) as (_ & _ & _ & F & _ & R & K & _).
  cbn zeta in *. rewrite (K (R (or_introl P))). auto.
Qed.

Lemma offline_check_makes_no_feed_call_witness :
  Trace.probe_unavailable
    (events (run (env_of Scenario.offline) [] Scenario.boot_store Route.scheduled_tick)) = true /\
  Trace.feed_fetches
    (events (run (env_of Scenario.offline) [] Scenario.boot_store
                 (Route.POST Route.check_request))) = 0.
Proof.
  split; [reflexivity|].
  apply (offline_check_makes_no_feed_call (env_of Scenario.offline) [] Scenario.boot_store).
  reflexivity.
Defined.

(** C3, as the claim states it, fails: with a title without a version and
    the tag "v", the check records the non-null pair ("1.2.0", "") and,
    although the two strings differ, reports no update. *)
Lemma empty_latest_version_reports_no_update :
  let r := run (env_of Scenario.bare_tag) [] Scenario.boot_store Route.checkForUpdates in
  let i := Route.lastUpdateInfo (final r) in
  Route.localVersion i = Some "1.2.0" /\
  Route.latestVersion i = Some "" /\
  String.eqb "1.2.0" "" = false /\
  Route.updateAvailable i = false.
Proof. vm_compute. repeat split; reflexivity. Qed.

(** C3 (amended): for every pair of a non-null local version and a non-null
    latest version that a check records, the check reports update-available
    exactly when the latest version is not the empty string and differs from
    the local one as a plain string (no ordering of versions is applied, so a
    lower remote version is reported as an update too), and up-to-date when
    the two are equal. *)
Theorem update_available_by_string_inequality
    (w : env) (h : list event) (s : Route.store) (local latest : string) :
  let r := run w h s Route.checkForUpdates in
  let i := Route.lastUpdateInfo (final r) in
  Trace.recorded (events r) = true ->
  Route.localVersion i = Some local ->
  Route.latestVersion i = Some latest ->
  Route.updateAvailable i = JsString.truthy latest && negb (String.eqb local latest).
Proof.
  intros r i R L T.
  destruct (checkForUpdates_compares w h s R) as (U & _).
  fold r in U. fold i in U. rewrite U, L, T. reflexivity.
Qed.

Lemma update_available_by_string_inequality_witness :
  Route.updateAvailable
    (Route.lastUpdateInfo
       (final (run (env_of Scenario.rollback) [] Scenario.boot_store Route.checkForUpdates)))
  = JsString.truthy "1.1.9" && negb (String.eqb "1.2.0" "1.1.9").
Proof.
  apply (update_available_by_string_inequality
           (env_of Scenario.rollback) [] Scenario.boot_store "1.2.0" "1.1.9");
    reflexivity.
Defined.

(** C4, as the claim states it, fails: a title without a version token does
    not stop the check from taking the version from the tag; here it reports
    an update to 1.2.1. *)
Lemma unparseable_title_with_tag_reports_update :
  let r := run (env_of Scenario.newer_tag) [] Scenario.boot_store Route.checkForUpdates in
  let i := Route.lastUpdateInfo (final r) in
  JsString.match_version "Nightly build" = None /\
  Route.releaseName i = JStr "Nightly build" /\
  Route.updateAvailable i = true /\
  Route.latestVersion i = Some "1.2.1".
Proof. vm_compute. repeat split; reflexivity. Qed.

(** C4 (amended): for every remote release whose title contains no parseable
    version token and whose tag is missing or empty, the check completes
    without throwing and its result has [updateAvailable: false] and
    [latestVersion: null]. *)
Theorem no_version_in_title_or_tag (w : env) (h : list event) (s : Route.store)
    (rel : release) (title : string) :
  let r := run w h s Route.checkForUpdates in
  let i := Route.lastUpdateInfo (final r) in
  Trace.collect Trace.json_answer (events r) = [inr (BodyRelease rel)] ->
  name rel = JStr title ->
  (forall v, ~ JsString.token_in title v) ->
  field_truthy (tag_name rel) = false ->
  outcome r = inr tt /\
  Route.updateAvailable i = false /\
  Route.latestVersion i = None.
Proof.
  intros r i J N T G.
  apply match_version_none in T.
  assert (V : Route.version_from_name (name rel) = inr None).
  { rewrite N. cbn. rewrite T. now destruct (JsString.truthy title). }
  assert (F : Route.fallback_to_tag None (tag_name rel) = inr None).
  { unfold Route.fallback_to_tag. rewrite G. reflexivity. }
  destruct (checkForUpdates_records w h s rel None None J V F) as (O & a & now & _ & E).
  fold r in O, E. subst i. rewrite E. auto.
Qed.

Lemma nightly_has_no_token (v : string) : ~ JsString.token_in "Nightly build" v.
Proof. now apply match_version_none. Qed.

Lemma no_version_in_title_or_tag_witness :
  let r := run (env_of Scenario.untagged_nightly) [] Scenario.boot_store Route.checkForUpdates in
  outcome r = inr tt /\
  Route.updateAvailable (Route.lastUpdateInfo (final r)) = false /\
  Route.latestVersion (Route.lastUpdateInfo (final r)) = None.
Proof.
  apply (no_version_in_title_or_tag (env_of Scenario.untagged_nightly) [] Scenario.boot_store
           (mkRelease (JStr "Nightly build") JNull
              (Some [mkAsset "orbis-ship.zip" "https://example.invalid/orbis-ship.zip"]))
           "Nightly build").
  - reflexivity.
  - reflexivity.
  - exact nightly_has_no_token.
  - reflexivity.
Defined.

(** A token as the specification words it shows its [(v] in the title,
    and is a token of the pattern.  *)
Lemma claimed_token_occurs (s v : string) :
  Claimed.token_in s v -> Claimed.occurs "(v" s = true.
Proof.
  intros (before & after & -> & _ & rest & ->).
  induction before as [|c b IH].
  - cbn. destruct (v ++ String ")" rest); reflexivity.
  - change (String c b ++ "(v" ++ v ++ ")" ++ rest)
      with (String c (b ++ "(v" ++ v ++ ")" ++ rest)).
    cbn [Claimed.occurs]. rewrite IH. apply orb_true_r.
Qed.

Lemma claimed_token_is_token (s v : string) :
  Claimed.token_in s v -> JsString.token_in s v.
Proof.
  intros (before & after & E & V & rest & R).
  exists before, after. split; [exact E|]. split; [exact V|].
  exists rest. right. exact R.
Qed.

(** C5, as the claim states it, fails: the [v] of the pattern is optional
    in the code.  The title "Build (1.0.0)" has no token
    [(vMAJOR.MINOR.PATCH[.BUILD])], yet the check takes 1.0.0 from it and
    does not fall back to the tag v2.0.0; with the local version 2.0.0 it
    reports an update. *)
Lemma unprefixed_title_is_parsed :
  let r := run (env_of Claimed.unprefixed) [] Scenario.boot_store Route.checkForUpdates in
  let i := Route.lastUpdateInfo (final r) in
  (forall v, ~ Claimed.token_in "Build (1.0.0)" v) /\
  Route.latestVersion i = Some "1.0.0" /\
  Route.latestVersion i <> Some (JsString.strip_v "v2.0.0") /\
  Route.localVersion i = Some "2.0.0" /\
  Route.updateAvailable i = true.
Proof.
  split.
  - intros v T. apply claimed_token_occurs in T. discriminate T.
  - vm_compute. repeat split; try reflexivity. discriminate.
Qed.

(** C5 (amended): the latest version is the version of the leftmost token
    of the release title, a token being [MAJOR.MINOR.PATCH[.BUILD]] in
    parentheses with or without a [v] before the number (every token
    [(vMAJOR.MINOR.PATCH[.BUILD])] is one); the [v] is not part of the
    result and the tag is not consulted then.  When the title has no such
    token it is the tag with a leading [v] removed.  Local "1.2.0" with the
    title "Release (v1.2.1)" gives
    [{ updateAvailable: true, localVersion: "1.2.0", latestVersion: "1.2.1" }];
    local "1.2.0" with a title without a version and the tag "v1.2.0" gives
    [{ updateAvailable: false }]. *)
Theorem latest_version_from_title_or_tag :
  (forall (w : env) (h : list event) (s : Route.store) (rel : release) (title v0 : string),
     let r := run w h s Route.checkForUpdates in
     Trace.collect Trace.json_answer (events r) = [inr (BodyRelease rel)] ->
     name rel = JStr title ->
     JsString.token_in title v0 ->
     exists v before after,
       title = before ++ after /\
       JsString.token_here after v /\
       (forall b a v', title = b ++ a -> String.length b < String.length before ->
                       ~ JsString.token_here a v') /\
       JsString.match_version title = Some v /\
       Route.latestVersion (Route.lastUpdateInfo (final r)) = Some v) /\
  (forall (w : env) (h : list event) (s : Route.store) (rel : release) (title tag : string),
     let r := run w h s Route.checkForUpdates in
     Trace.collect Trace.json_answer (events r) = [inr (BodyRelease rel)] ->
     name rel = JStr title ->
     (forall v, ~ JsString.token_in title v) ->
     tag_name rel = JStr tag ->
     JsString.truthy tag = true ->
     Route.latestVersion (Route.lastUpdateInfo (final r)) = Some (JsString.strip_v tag)) /\
  (forall title v, Claimed.token_in title v -> JsString.token_in title v) /\
  (let r := run (env_of Scenario.newer_release) [] Scenario.boot_store Route.checkForUpdates in
   let i := Route.lastUpdateInfo (final r) in
   Route.updateAvailable i = true /\
   Route.localVersion i = Some "1.2.0" /\
   Route.latestVersion i = Some "1.2.1") /\
  (let r := run (env_of Scenario.same_tag) [] Scenario.boot_store Route.checkForUpdates in
   let i := Route.lastUpdateInfo (final r) in
   JsString.match_version "Nightly build" = None /\
   Route.latestVersion i = Some "1.2.0" /\
   Route.updateAvailable i = false).
Proof.
  split; [|split; [|split; [|split]]].
  - intros w h s rel title v0 r J N T.
    destruct (match_version_complete title v0 T) as (v & M).
    destruct (match_version_truthy title v M) as (Tt & Tv).
    assert (V : Route.version_from_name (name rel) = inr (Some v)).
    { rewrite N. cbn. now rewrite Tt, M. }
    assert (F : Route.fallback_to_tag (Some v) (tag_name rel) = inr (Some v)).
    { unfold Route.fallback_to_tag. cbn. now rewrite Tv. }
    destruct (checkForUpdates_records w h s rel _ _ J V F) as (_ & a & now & _ & E).
    fold r in E.
    destruct (match_version_leftmost title v M) as (before & after & S & K & L).
    exists v, before, after. rewrite E. repeat split; auto; apply K.
  - intros w h s rel title tag r J N T G Tt.
    apply match_version_none in T.
    assert (V : Route.version_from_name (name rel) = inr None).
    { rewrite N. cbn. rewrite T. now destruct (JsString.truthy title). }
    assert (F : Route.fallback_to_tag None (tag_name rel) = inr (Some (JsString.strip_v tag))).
    { unfold Route.fallback_to_tag. rewrite G. cbn. now rewrite Tt. }
    destruct (checkForUpdates_records w h s rel _ _ J V F) as (_ & a & now & _ & E).
    fold r in E. rewrite E. reflexivity.
  - exact claimed_token_is_token.
  - vm_compute. repeat split; reflexivity.
  - vm_compute. repeat split; reflexivity.
Qed.

Lemma release_title_has_token : JsString.token_in "Release (v1.2.1)" "1.2.1".
Proof.
  exists "Release ", "(v1.2.1)". split; [reflexivity|].
  now apply match_here_sound.
Qed.

Lemma latest_version_from_title_or_tag_witness :
  (exists v before after,
     "Release (v1.2.1)" = before ++ after /\
     JsString.token_here after v /\
     (forall b a v', "Release (v1.2.1)" = b ++ a ->
                     String.length b < String.length before ->
                     ~ JsString.token_here a v') /\
     JsString.match_version "Release (v1.2.1)" = Some v /\
     Route.latestVersion
       (Route.lastUpdateInfo
          (final (run (env_of Scenario.newer_release) [] Scenario.boot_store
                      Route.checkForUpdates))) = Some v) /\
  Route.latestVersion
    (Route.lastUpdateInfo
       (final (run (env_of Scenario.same_tag) [] Scenario.boot_store
                   Route.checkForUpdates))) = Some (JsString.strip_v "v1.2.0").
Proof.
  split.
  - apply (proj1 latest_version_from_title_or_tag
             (env_of Scenario.newer_release) [] Scenario.boot_store
             (mkRelease (JStr "Release (v1.2.1)") JUndefined
                (Some [mkAsset "orbis-ship.zip" "https://example.invalid/orbis-ship.zip"]))
             "Release (v1.2.1)" "1.2.1").
    + reflexivity.
    + reflexivity.
    + exact release_title_has_token.
  - apply (proj1 (proj2 latest_version_from_title_or_tag)
             (env_of Scenario.same_tag) [] Scenario.boot_store
             (mkRelease (JStr "Nightly build") (JStr "v1.2.0")
                (Some [mkAsset "orbis-ship.zip" "https://example.invalid/orbis-ship.zip"]))
             "Nightly build" "v1.2.0").
    + reflexivity.
    + reflexivity.
    + exact nightly_has_no_token.
    + reflexivity.
    + reflexivity.
Defined.

(** C7: whatever the release-feed call does (network error, a status that
    is not 2xx, a body that is not JSON), the check never throws to its
    caller; a failure is caught and logged, the store is left as it was
    (the updater is idle again), and nothing is retried or rescheduled: the
    feed is called at most once and no timer is set. *)
Theorem check_never_throws (w : env) (h : list event) (s : Route.store) :
  let r := run w h s Route.checkForUpdates in
  outcome r = inr tt /\
  Trace.feed_fetches (events r) <= 1 /\
  filter Trace.schedules (events r) = [] /\
  (Trace.feed_call_failed (events r) = true ->
   Trace.error_logged "[updater] Update check failed:" (events r) = true /\
   final r = s).
Proof.
  intros r.
  destruct (checkForUpdates_run w h s) as (O & F & T & _ & L & R & K & _).
  fold r in O, F, T, L, R, K. cbn zeta in *.
  repeat split; auto.
Qed.

Lemma check_never_throws_witness :
  let r := run (env_of Scenario.feed_down) [] Scenario.boot_store Route.checkForUpdates in
  Trace.feed_call_failed (events r) = true /\
  Trace.error_logged "[updater] Update check failed:" (events r) = true /\
  final r = Scenario.boot_store.
Proof.
  split; [reflexivity|].
  apply (proj2 (proj2 (proj2
           (check_never_throws (env_of Scenario.feed_down) [] Scenario.boot_store)))).
  reflexivity.
Defined.

(** C10: if the local version cannot be determined ([getLocalVersion] gives
    null: [package.json] cannot be read, or has no version) while the check
    extracts a latest version, the check reports [updateAvailable: true]:
    null differs from every string. *)
Theorem null_local_version_reports_update
    (w : env) (h : list event) (s : Route.store)
    (a : JsError + option string) (latest : string) :
  let r := run w h s Route.checkForUpdates in
  let i := Route.lastUpdateInfo (final r) in
  Trace.recorded (events r) = true ->
  Trace.collect Trace.version_answer (events r) = [a] ->
  Trace.local_version a = None ->
  Route.latestVersion i = Some latest ->
  JsString.truthy latest = true ->
  Route.localVersion i = None /\ Route.updateAvailable i = true.
Proof.
  intros r i R A N L T.
  destruct (checkForUpdates_compares w h s R) as (U & a' & A' & L').
  fold r in U, A', L'. fold i in U, L'.
  rewrite A in A'. injection A' as <-.
  rewrite N in L'. rewrite U, L', L. cbn. now rewrite T.
Qed.

Lemma null_local_version_reports_update_witness :
  let r := run (env_of Scenario.unreadable_package) [] Scenario.boot_store
               Route.checkForUpdates in
  Route.localVersion (Route.lastUpdateInfo (final r)) = None /\
  Route.updateAvailable (Route.lastUpdateInfo (final r)) = true.
Proof.
  apply (null_local_version_reports_update
           (env_of Scenario.unreadable_package) [] Scenario.boot_store
           (inl (mkError "ENOENT: no such file or directory")) "1.2.1");
    reflexivity.
Defined.

(** ** The update procedure *)

Section PerformUpdate.

Import Route Trace.

Lemma find_existsb {A} (f : A -> bool) (l : list A) (x : A) :
  find f l = Some x -> existsb f l = true.
Proof.
  intros E. apply find_some in E as (I & F). apply existsb_exists. eauto.
Qed.

(** The search for the extracted directory fails exactly when a [stat]
    throws; it writes nothing. *)
Lemma find_directory_run (w : env) (dir : string) (entries : list string) :
  forall h s,
    let r := run w h s (find_directory dir entries) in
    final r = s /\
    update_failed (events r) = rejected (outcome r).
Proof.
  induction entries as [|entry rest IH]; intros h s r; subst r.
  - split; reflexivity.
  - change (find_directory dir (entry :: rest)) with
      (Vis (StatIsDirectory (path_join dir entry))
           (fun x => pbind (match x with inl error => Throw error | inr b => Ret b end)
                           (fun isDirectory : bool =>
                              if isDirectory then Ret (Some entry)
                              else find_directory dir rest))).
    rewrite run_vis.
    destruct (w _ h (StatIsDirectory (path_join dir entry))) as [e|[|]] eqn:E; cbn [pbind].
    + split; reflexivity.
    + split; reflexivity.
    + destruct (IH (h ++ [Ev (StatIsDirectory (path_join dir entry)) (inr false)])%list s)
        as (F & U).
      unfold emit. cbn [final events outcome]. split; [exact F|].
      unfold update_failed in *. cbn. exact U.
Qed.

(** The update procedure never throws, leaves the module's variables as
    they were, answers [false] whenever one of its steps failed, and has
    scheduled the restart whenever it answers [true]. *)
Lemma performUpdate_run (w : env) (h : list event) (s : store) :
  let r := run w h s performUpdate in
  final r = s /\
  exists b,
    outcome r = inr b /\
    (update_failed (events r) = true -> b = false) /\
    (b = true -> restart_scheduled (events r) = true).
Proof.
  intros r. assert (H : r = run w h s performUpdate) by reflexivity. clearbody r.
  unfold performUpdate, downloadAndExtractUpdate, runCommand, property in H.
  run_all H.
  all: try rewrite run_catch_bind in H; cbn zeta in H.
  all: try match type of H with
       | context [run ?w ?h ?s (find_directory ?d ?l)] =>
           let F := fresh "F" in
           let U := fresh "U" in
           destruct (find_directory_run w d l h s) as (F & U);
           destruct (run w h s (find_directory d l)) as [o f t];
           cbn [outcome final events] in *; subst f; destruct o
       end.
  all: run_all H.
  all: run_done H r.
  all: split; [reflexivity|]; eexists; (split; [reflexivity|]).
  all: split;
       [| intros B; try discriminate B; unfold restart_scheduled; cbn;
          rewrite ?existsb_app; cbn; rewrite ?orb_true_r; reflexivity ].
  all: try (intros _; reflexivity).
  all: unfold update_failed in *; cbn; rewrite ?existsb_app; cbn.
  all: repeat match goal with E : ok _ = _ |- _ => rewrite ?E; clear E end; cbn.
  all: try rewrite U; cbn.
  all: repeat match goal with E : err _ = _ |- _ => rewrite ?E; clear E end; cbn.
  all: try (destruct (assets _); cbn in *;
            [ erewrite find_existsb by eassumption | discriminate ]).
  all: cbn; discriminate.
Qed.

(** The [update] command is the update procedure followed by the response
    built from its result. *)
Lemma POST_update_run (w : env) (h : list event) (s : store) :
  let u := run w h s performUpdate in
  exists b,
    outcome u = inr b /\
    run w h s (POST update_request) = mkResult (inr (update_response b)) s (events u).
Proof.
  intros u.
  destruct (performUpdate_run w h s) as (F & b & O & _ & _). fold u in F, O.
  exists b. split; [exact O|].
  change (POST update_request) with
    (try_catch
       (pbind performUpdate (fun updateResult : bool => Ret (update_response updateResult)))
       (fun error =>
          pbind (console LError ["Updater action error:"; message error])
                (fun _ => Ret (mkHttp 500 false
                                 (ErrorData ("Updater action failed: " ++ message error)))))).
  rewrite run_try_catch, run_bind. cbn zeta. fold u.
  rewrite O, F. cbn. rewrite app_nil_r. reflexivity.
Qed.

End PerformUpdate.

(** C9: when the update procedure fails (the feed or the download answers
    with an error, the release has no ZIP asset, a file operation throws,
    the extraction or the copy ends with an error), the response of the
    [update] command is still HTTP 200 with [success: true]; the failure
    shows only in [updatePerformed: false] and the message "Update failed". *)
Theorem failed_update_answers_success (w : env) (h : list event) (s : Route.store) :
  let r := run w h s (Route.POST Route.update_request) in
  Trace.update_failed (events r) = true ->
  outcome r =
    inr (Route.mkHttp 200 true (Route.UpdateData "Update failed" false)).
Proof.
  intros r U. subst r.
  destruct (POST_update_run w h s) as (b & O & E).
  destruct (performUpdate_run w h s) as (_ & b' & O' & Fl & _).
  rewrite O in O'. injection O' as <-.
  rewrite E in *. cbn [events outcome] in *.
  rewrite (Fl U). reflexivity.
Qed.

Lemma failed_update_answers_success_witness :
  outcome (run (env_of Scenario.download_missing) [] Scenario.boot_store
               (Route.POST Route.update_request)) =
    inr (Route.mkHttp 200 true (Route.UpdateData "Update failed" false)).
Proof.
  apply (failed_update_answers_success
           (env_of Scenario.download_missing) [] Scenario.boot_store).
  reflexivity.
Defined.

(** C6, as the claim states it, fails: when an [update] command is
    dispatched no response is sent; the handler waits for the update
    procedure (six awaited steps here), and the response it then sends tells
    the outcome: performed in one environment, failed in the other. *)
Lemma update_response_carries_outcome :
  let up := env_of Scenario.release_121 in
  let down := env_of Scenario.download_missing in
  let srv := EventLoop.idle Scenario.boot_store in
  let update := EventLoop.update in
  let answer := EventLoop.Answer 0 in
  EventLoop.replies (EventLoop.steps up srv [update]) = [] /\
  EventLoop.in_flight (EventLoop.steps up srv [update]) = 1 /\
  EventLoop.replies (EventLoop.steps up srv (update :: repeat answer 5)) = [] /\
  EventLoop.replies (EventLoop.steps up srv (update :: repeat answer 6)) =
    [inr (Some (Route.mkHttp 200 true
                  (Route.UpdateData "Update initiated - application will restart" true)))] /\
  EventLoop.replies (EventLoop.steps down srv (update :: repeat answer 3)) =
    [inr (Some (Route.mkHttp 200 true (Route.UpdateData "Update failed" false)))].
Proof. vm_compute. repeat split; reflexivity. Qed.

(** C6 (amended): the HTTP response of the [update] command is not sent on
    dispatch; the handler awaits the update procedure and builds the
    response from its result once it has ended ([updatePerformed: true] with
    "Update initiated - application will restart", or [updatePerformed:
    false] with "Update failed"); the update procedure leaves the state
    that [status] reads from memory unchanged. *)
Theorem update_response_follows_procedure :
  (forall (w : env) (srv : EventLoop.server),
     exists srv',
       EventLoop.step w srv EventLoop.update = Some srv' /\
       EventLoop.sent srv' = EventLoop.sent srv /\
       EventLoop.mem srv' = EventLoop.mem srv) /\
  (forall (w : env) (h : list event) (s : Route.store),
     let u := run w h s Route.performUpdate in
     let r := run w h s (Route.POST Route.update_request) in
     exists b,
       outcome u = inr b /\
       outcome r = inr (Route.update_response b) /\
       events r = events u /\
       final r = s).
Proof.
  split.
  - intros w srv. eexists. split; [reflexivity|].
    unfold EventLoop.dispatch, EventLoop.absorb. cbn.
    rewrite app_nil_r. split; reflexivity.
  - intros w h s u r. subst r.
    destruct (POST_update_run w h s) as (b & O & E). fold u in O, E.
    exists b. rewrite E. repeat split; auto.
Qed.

(** C1, as the claim states it, fails: a second [update] command that
    arrives while the first update procedure awaits the release feed is not
    rejected; it starts a second run, and two are in flight. *)
Lemma two_updates_in_flight :
  let w := env_of Scenario.release_121 in
  exists srv,
    EventLoop.steps w (EventLoop.boot w "boot") [EventLoop.update; EventLoop.update]
      = Some srv /\
    EventLoop.updates_in_flight srv = 2 /\
    Trace.update_runs_started (EventLoop.log srv) = 2 /\
    EventLoop.sent srv = [].
Proof. eexists. split; [reflexivity|]. vm_compute. auto. Qed.

Lemma collect_app {A} (f : event -> option A) (t u : list event) :
  Trace.collect f (t ++ u) = (Trace.collect f t ++ Trace.collect f u)%list.
Proof.
  induction t as [|ev t IH]; cbn; [reflexivity|].
  destruct (f ev); cbn; now rewrite IH.
Qed.

(** C1 (amended): the server keeps no record of an update in progress; in
    every state, whatever is already in flight, an [update] command starts
    one more run of the update procedure, which is then in flight at its
    call to the release feed, and no rejection (no response at all) is sent
    at that point. *)
Theorem update_command_starts_a_run (w : env) (srv : EventLoop.server) :
  exists srv',
    EventLoop.step w srv EventLoop.update = Some srv' /\
    EventLoop.updates_in_flight srv' = S (EventLoop.updates_in_flight srv) /\
    Trace.update_runs_started (EventLoop.log srv')
      = S (Trace.update_runs_started (EventLoop.log srv)) /\
    EventLoop.sent srv' = EventLoop.sent srv.
Proof.
  eexists. split; [reflexivity|].
  unfold EventLoop.dispatch, EventLoop.absorb. cbn.
  unfold EventLoop.updates_in_flight, Trace.update_runs_started, Trace.console_lines. cbn.
  rewrite filter_app, length_app, collect_app, filter_app, length_app. cbn.
  rewrite app_nil_r. repeat split; lia.
Qed.

(** ** The source-control updater *)

Section SourceControl.

Import Trace.

Variable this : Updater.NextJSUpdater.

(** The check of the source-control updater never throws, changes nothing,
    and compares the local version with the tag of the release. *)
Lemma Updater_checkForUpdates_run (w : env) (h : list event) (s : Updater.store) :
  let r := run w h s (Updater.checkForUpdates this) in
  final r = s /\
  side_effects (events r) = [] /\
  exists c,
    outcome r = inr c /\
    (forall rel tag a,
       collect json_answer (events r) = [inr (BodyRelease rel)] ->
       tag_name rel = JStr tag ->
       collect version_answer (events r) = [a] ->
       Updater.updateAvailable c
         = strict_neq (local_version a) (Some (JsString.strip_v tag))).
Proof.
  intros r. assert (H : r = run w h s (Updater.checkForUpdates this)) by reflexivity.
  clearbody r.
  unfold Updater.checkForUpdates, Updater.getLocalVersion, Updater.fetchLatestRelease in H.
  run_all H.
  all: run_done H r.
  all: split; [reflexivity|]; split; [reflexivity|]; eexists; split; [reflexivity|].
  all: cbn; intros rel tag a' J T V; try discriminate.
  all: injection J as J; injection V as V; subst; try discriminate.
  all: try congruence.
  all: repeat match goal with E : Some _ = Some _ |- _ => injection E as E; subst end.
  all: match goal with E : tag_name _ = JStr _, E' : tag_name _ = JStr _ |- _ =>
         rewrite E in E'; injection E' as -> end.
  all: cbn; repeat match goal with E : truthy_opt _ = _ |- _ => rewrite E end;
       reflexivity.
Qed.

Lemma checkAndUpdate_up_to_date (w : env) (h : list event) (s : Updater.store)
    (rel : release) (tag : string) (a : JsError + option string) :
  let check := run w h s (Updater.checkForUpdates this) in
  let r := run w h s (Updater.checkAndUpdate this) in
  collect json_answer (events check) = [inr (BodyRelease rel)] ->
  tag_name rel = JStr tag ->
  collect version_answer (events check) = [a] ->
  local_version a = Some (JsString.strip_v tag) ->
  outcome r = inr false /\ side_effects (events r) = [] /\ final r = s.
Proof.
  intros check r J T V L. subst r.
  change (Updater.checkAndUpdate this) with
    (pbind (Updater.checkForUpdates this)
           (fun updateCheck =>
              if Updater.updateAvailable updateCheck
              then pbind (console LLog ["[updater] Update available: "
                            ++ JsString.of_nullable (Updater.latestVersion updateCheck)])
                         (fun _ => Updater.performUpdate this)
              else pbind (console LLog ["[updater] No updates available"])
                         (fun _ => Ret false))).
  rewrite run_bind. cbn zeta. fold check.
  destruct (Updater_checkForUpdates_run w h s) as (F & E & c & O & U).
  fold check in F, E, O, U. cbn zeta in U.
  rewrite O, (U rel tag a J T V), L. cbn [strict_neq].
  rewrite String.eqb_refl. cbn [negb pbind console perform].
  rewrite run_vis, run_ret. unfold emit. cbn [outcome final events].
  repeat split; auto.
  unfold side_effects in *. rewrite filter_app, E. reflexivity.
Qed.

End SourceControl.

(** C8, as the claim states it, fails for the update procedure of the
    route: run a second time against the same release and the same local
    version, it downloads, extracts, copies and schedules the restart all
    over again. *)
Lemma second_update_repeats_side_effects :
  let w := env_of Scenario.newer_release in
  let first := run w [] Scenario.boot_store Route.performUpdate in
  let second := run w (events first) (final first) Route.performUpdate in
  Trace.collect Trace.json_answer (events second)
    = Trace.collect Trace.json_answer (events first) /\
  outcome second = inr true /\
  length (Trace.side_effects (events second)) = 6.
Proof. vm_compute. repeat split; reflexivity. Qed.

(** C8 (amended): the source-control updater runs its update procedure only
    when its check reports an update: when a pass of [checkAndUpdate] (the
    second of two in a row, say) finds the local version equal to the tag
    of the latest release, it runs no command, sets no timer, calls no
    callback, leaves the updater's state as it was and returns false.  The
    update procedure of the route compares no versions: every run of it
    that succeeds has scheduled the restart of the process again. *)
Theorem up_to_date_pass_changes_nothing :
  (forall (this : Updater.NextJSUpdater) (w : env) (h : list event) (s : Updater.store)
          (rel : release) (tag : string) (a : JsError + option string),
     let first := run w h s (Updater.checkAndUpdate this) in
     let h' := (h ++ events first)%list in
     let check := run w h' (final first) (Updater.checkForUpdates this) in
     let second := run w h' (final first) (Updater.checkAndUpdate this) in
     Trace.collect Trace.json_answer (events check) = [inr (BodyRelease rel)] ->
     tag_name rel = JStr tag ->
     Trace.collect Trace.version_answer (events check) = [a] ->
     Trace.local_version a = Some (JsString.strip_v tag) ->
     outcome second = inr false /\
     Trace.side_effects (events second) = [] /\
     final second = final first) /\
  (forall (w : env) (h : list event) (s : Route.store),
     let r := run w h s Route.performUpdate in
     outcome r = inr true ->
     Trace.restart_scheduled (events r) = true).
Proof.
  split.
  - intros this w h s rel tag a first h' check second.
    apply checkAndUpdate_up_to_date.
  - intros w h s r O.
    destruct (performUpdate_run w h s) as (_ & b & O' & _ & R). fold r in O', R.
    rewrite O in O'. injection O' as <-. now apply R.
Qed.

Lemma up_to_date_pass_changes_nothing_witness :
  let first := run Scenario.pulling [] None (Updater.checkAndUpdate Scenario.updater) in
  let second := run Scenario.pulling (events first) (final first)
                    (Updater.checkAndUpdate Scenario.updater) in
  let again := run (env_of Scenario.newer_release) [] Scenario.boot_store
                   Route.performUpdate in
  outcome first = inr true /\
  (outcome second = inr false /\
   Trace.side_effects (events second) = [] /\
   final second = final first) /\
  Trace.restart_scheduled (events again) = true.
Proof.
  split; [reflexivity|]. split.
  - apply (proj1 up_to_date_pass_changes_nothing
             Scenario.updater Scenario.pulling [] None
             (mkRelease (JStr "Release (v1.2.1)") (JStr "v1.2.1")
                (Some [mkAsset "orbis-ship.zip" "https://example.invalid/orbis-ship.zip"]))
             "v1.2.1" (inr (Some "1.2.1")));
      reflexivity.
  - apply (proj2 up_to_date_pass_changes_nothing
             (env_of Scenario.newer_release) [] Scenario.boot_store).
    reflexivity.
Defined.

(** ** The version pattern, in full *)

(** X1: [name.match(...)] with the updater's pattern returns the version
    of the leftmost token of the title (a version of three or four numbers
    in parentheses, with an optional [v]): no token starts before the one
    captured, and a token that starts where it does has the same version.
    It returns [null] exactly when the title holds no token at all. *)
Theorem version_pattern_takes_leftmost_token (title : string) :
  match JsString.match_version title with
  | Some v =>
      exists before after,
        title = before ++ after /\
        JsString.token_here after v /\
        (forall v', JsString.token_here after v' -> v' = v) /\
        (forall b a v', title = b ++ a -> String.length b < String.length before ->
                        ~ JsString.token_here a v')
  | None => forall v, ~ JsString.token_in title v
  end.
Proof.
  destruct (JsString.match_version title) as [v|] eqn:M.
  - destruct (match_version_leftmost title v M) as (before & after & E & T & L).
    exists before, after. split; [exact E|]. split; [exact T|]. split; [|exact L].
    intros v' T'. apply match_here_complete in T, T'. congruence.
  - now apply match_version_none.
Qed.

(** ** The handlers of the route *)

Section Handlers.

Import Route Trace Observe.

Lemma POST_unsupported (w : env) (h : list event) (s : store) (action : option string) :
  supported action = false ->
  run w h s (POST (inr (ReqObject action))) =
  mkResult (inr (mkHttp 400 false
                   (ErrorData "Invalid action. Supported actions: start, stop, check, update")))
           s [].
Proof.
  unfold supported. intros U.
  apply orb_false_iff in U as (U & U4). apply orb_false_iff in U as (U & U3).
  apply orb_false_iff in U as (U1 & U2).
  unfold POST. cbn. rewrite U1, U2, U3, U4. reflexivity.
Qed.

Lemma POST_stop_run (w : env) (h : list event) (s : store) :
  let r := run w h s (POST stop_request) in
  outcome r = inr (mkHttp 200 true (RunningData "Background auto-updater stopped" false)) /\
  final r = mkStore false None (lastUpdateInfo s) /\
  timer_ops (events r) = map OpClear (active_handle s).
Proof.
  intros r. assert (H : r = run w h s (POST stop_request)) by reflexivity.
  clearbody r. unfold POST, stopBackgroundUpdater, assign in H.
  run_all H.
  all: run_done H r.
  all: unfold active_handle; cbn; repeat split; try reflexivity.
  all: unfold set_isUpdaterRunning; cbn;
       match goal with E : checkInterval _ = _ |- _ => rewrite E end; reflexivity.
Qed.

Lemma POST_start_run (w : env) (h : list event) (s : store) :
  let r := run w h s (POST start_request) in
  exists handle,
    outcome r = inr (mkHttp 200 true (RunningData "Background auto-updater started" true)) /\
    final r = mkStore true (Some handle) (lastUpdateInfo s) /\
    timer_ops (events r) =
      (map OpClear (active_handle s)
       ++ [OpSpawn CbCheckForUpdates;
           OpSetInterval CbCheckForUpdates UPDATE_CHECK_INTERVAL handle])%list.
Proof.
  intros r. assert (H : r = run w h s (POST start_request)) by reflexivity.
  clearbody r. unfold POST, startBackgroundUpdater, assign in H.
  run_all H.
  all: run_done H r.
  all: eexists; unfold active_handle; cbn; repeat split; try reflexivity.
  all: unfold set_isUpdaterRunning; cbn;
       match goal with E : checkInterval _ = _ |- _ => rewrite E end; reflexivity.
Qed.

End Handlers.


(** X3: [GET] reads [package.json] once and answers 200 with the module
    variables as they are and the local version just read ([null] when the
    file cannot be read or its version is empty); it awaits nothing,
    changes no module variable and has no side effect. *)
Theorem status_is_read_only (w : env) (h : list event) (s : Route.store) :
  let r := run w h s Route.GET in
  let i := Route.lastUpdateInfo s in
  exists a,
    Trace.collect Trace.version_answer (events r) = [a] /\
    outcome r =
      inr (Route.mkHttp 200 true
             (Route.StatusData (Route.isUpdaterRunning s) (Trace.local_version a) Route.REPO
                (Route.lastCheck i) (Route.updateAvailable i) (Route.latestVersion i)
                (Route.releaseName i)
                (if Route.isUpdaterRunning s then "Auto-updater is running"
                 else "Auto-updater is stopped"))) /\
    final r = s /\
    Observe.awaits (events r) = [] /\
    Trace.side_effects (events r) = [].
Proof.
  intros r. assert (H : r = run w h s Route.GET) by reflexivity. clearbody r.
  unfold Route.GET, Route.getLocalVersion in H.
  run_all H.
  all: run_done H r.
  all: eexists; repeat split; cbn; try reflexivity.
  all: repeat match goal with E : truthy_opt _ = _ |- _ => rewrite E end; reflexivity.
Qed.

(** X4: every [POST] is answered, never rejected, and [success] is true
    exactly when the status is 200: a body that is not JSON gives 500 with
    the parser's message, a body that cannot be destructured gives 500, one
    of the four actions gives 200 (whatever the action did), and any other
    action, or none, gives 400 without any effect. *)
Theorem post_answers_with_envelope (w : env) (h : list event) (s : Route.store)
    (request : Route.NextRequest) :
  let r := run w h s (Route.POST request) in
  exists resp,
    outcome r = inr resp /\
    Route.success resp = Nat.eqb (Route.http_status resp) 200 /\
    match request with
    | inl e =>
        resp = Route.mkHttp 500 false
                 (Route.ErrorData ("Updater action failed: " ++ message e)) /\
        final r = s
    | inr Route.ReqNull => Route.http_status resp = 500 /\ final r = s
    | inr (Route.ReqObject action) =>
        if Observe.supported action then Route.http_status resp = 200
        else resp = Route.mkHttp 400 false
                      (Route.ErrorData
                         "Invalid action. Supported actions: start, stop, check, update")
             /\ final r = s /\ events r = []
    end.
Proof.
  intros r. destruct request as [e | [| action]].
  - eexists. repeat split.
  - eexists. repeat split.
  - destruct (Observe.supported action) eqn:K.
    + unfold Observe.supported in K. destruct action as [a|]; [|discriminate].
      cbn in K.
      destruct (String.eqb_spec a "start") as [->|N1].
      { destruct (POST_start_run w h s) as (handle & O & _).
        eexists. split; [exact O|]. split; reflexivity. }
      destruct (String.eqb_spec a "stop") as [->|N2].
      { destruct (POST_stop_run w h s) as (O & _).
        eexists. split; [exact O|]. split; reflexivity. }
      destruct (String.eqb_spec a "check") as [->|N3].
      { subst r. change (inr (Route.ReqObject (Some "check"))) with Route.check_request.
        rewrite POST_check_run. eexists. split; [reflexivity|]. split; reflexivity. }
      destruct (String.eqb_spec a "update") as [->|N4]; [|discriminate].
      subst r. change (inr (Route.ReqObject (Some "update"))) with Route.update_request.
      destruct (POST_update_run w h s) as (b & _ & E). rewrite E.
      eexists. split; [reflexivity|]. split; reflexivity.
    + subst r. rewrite (POST_unsupported w h s action K).
      eexists. repeat split.
Qed.

(** X5: the answer to a [check] command is always 200 "Update check
    completed" with [lastUpdateInfo] as the check left it; when the probe
    or the call to the release feed fails the check records nothing, so
    the answer carries the update info of the check before, with nothing
    in it that tells the failure. *)
Theorem check_response_hides_failure (w : env) (h : list event) (s : Route.store) :
  let r := run w h s (Route.POST Route.check_request) in
  outcome r =
    inr (Route.mkHttp 200 true
           (Route.CheckData "Update check completed" (Route.lastUpdateInfo (final r)))) /\
  (Trace.recorded (events r) = false -> final r = s) /\
  (Trace.probe_unavailable (events r) = true \/ Trace.feed_call_failed (events r) = true ->
   Trace.recorded (events r) = false).
Proof.
  intros r. subst r. rewrite POST_check_run. cbn [outcome final events].
  destruct (checkForUpdates_run w h s) as (_ & _ & _ & _ & _ & N & R & _).
  cbn zeta in *. repeat split; auto.
Qed.

(** X6: a [stop] command clears the timer in [checkInterval], if there is
    one, and no other; it leaves [isUpdaterRunning] false and
    [checkInterval] null, and answers 200.  A second [stop] answers the
    same and clears nothing. *)
Theorem stop_clears_the_timer (w : env) (h : list event) (s : Route.store) :
  let r := run w h s (Route.POST Observe.stop_request) in
  let r' := run w (h ++ events r) (final r) (Route.POST Observe.stop_request) in
  outcome r =
    inr (Route.mkHttp 200 true
           (Route.RunningData "Background auto-updater stopped" false)) /\
  final r = Route.mkStore false None (Route.lastUpdateInfo s) /\
  Observe.timer_ops (events r) = map Observe.OpClear (Observe.active_handle s) /\
  outcome r' = outcome r /\
  final r' = final r /\
  Observe.timer_ops (events r') = [].
Proof.
  intros r r'.
  destruct (POST_stop_run w h s) as (O & F & T). fold r in O, F, T.
  destruct (POST_stop_run w (h ++ events r)%list (final r)) as (O' & F' & T').
  fold r' in O', F', T'.
  rewrite F in F', T'. cbn in F', T'.
  repeat split; auto; congruence.
Qed.

(** X7: a [start] command first clears the timer in [checkInterval], if
    there is one, then calls [checkForUpdates] without waiting for it and
    sets one timer that calls it every hour; the new handle is stored in
    [checkInterval], [isUpdaterRunning] is true, and the answer is 200
    whatever the check will find. *)
Theorem start_replaces_the_timer (w : env) (h : list event) (s : Route.store) :
  let r := run w h s (Route.POST Observe.start_request) in
  exists handle,
    outcome r =
      inr (Route.mkHttp 200 true
             (Route.RunningData "Background auto-updater started" true)) /\
    final r = Route.mkStore true (Some handle) (Route.lastUpdateInfo s) /\
    Observe.timer_ops (events r) =
      (map Observe.OpClear (Observe.active_handle s)
       ++ [Observe.OpSpawn CbCheckForUpdates;
           Observe.OpSetInterval CbCheckForUpdates Route.UPDATE_CHECK_INTERVAL handle])%list.
Proof. exact (POST_start_run w h s). Qed.

(** ** The steps of the update procedure *)

Section UpdateSteps.

Import Route Trace Steps.



End UpdateSteps.


(** ** The source-control update procedure *)

Section SourceUpdate.

Import Trace Steps.
Variable this : Updater.NextJSUpdater.

Lemma Updater_runCommand_run (w : env) (h : list event) (s : Updater.store) (cmd : string) :
  let r := run w h s (Updater.runCommand this cmd) in
  final r = s /\
  commands (events r) = [(cmd, negb (rejected (outcome r)))] /\
  existsb hook_threw (events r) = false /\
  restart_scheduled (events r) = false /\
  existsb in_production (events r) = false.
Proof.
  intros r. assert (H : r = run w h s (Updater.runCommand this cmd)) by reflexivity.
  clearbody r. unfold Updater.runCommand in H.
  run_all H.
  all: run_done H r.
  all: unfold commands; cbn.
  all: repeat match goal with E : err _ = _ |- _ => rewrite ?E; clear E end; cbn.
  all: repeat split; reflexivity.
Qed.

Lemma restart_step_run (w : env) (h : list event) (s : Updater.store) :
  let r := run w h s (restart_step this) in
  final r = s /\
  outcome r = inr tt /\
  existsb hook_threw (events r) = false /\
  exists done,
    commands (events r) = [("pm2 restart orbis-ship", done)] /\
    restart_scheduled (events r) = negb done && existsb in_production (events r).
Proof.
  intros r. assert (H : r = run w h s (restart_step this)) by reflexivity.
  clearbody r. unfold restart_step, Updater.runCommand in H.
  run_all H.
  all: run_done H r.
  all: unfold commands; cbn.
  all: repeat match goal with E : err _ = _ |- _ => rewrite ?E; clear E end; cbn.
  all: repeat match goal with E : strict_neq _ _ = _ |- _ => rewrite ?E; clear E end; cbn.
  all: repeat split; eexists; split; reflexivity.
Qed.

(** A call of [runCommand] inside a larger run, by what
    [Updater_runCommand_run] says of it. *)
Ltac call_runCommand H :=
  rewrite run_catch_bind in H; cbn zeta in H;
  match type of H with
  | context [run ?w ?h ?s (Updater.runCommand ?t ?c)] =>
      let F := fresh "F" in
      let C := fresh "C" in
      let K := fresh "K" in
      let R := fresh "R" in
      let P := fresh "P" in
      let o := fresh "o" in
      let f := fresh "f" in
      let tr := fresh "tr" in
      destruct (Updater_runCommand_run w h s c) as (F & C & K & R & P);
      destruct (run w h s (Updater.runCommand t c)) as [o f tr];
      cbn [outcome final events] in *; subst f; destruct o; cbn [rejected negb] in C
  end.

Ltac leaf :=
  cbn; (split; [reflexivity|]); (split; [reflexivity|]);
  (split; [ intros Hh; first [discriminate Hh | reflexivity] |]);
  (split; [ intros e He; first [discriminate He | reflexivity] |]);
  (split; [ intros Hp; first [discriminate Hp | reflexivity] |]);
  split; [ reflexivity |];
  first [ left; reflexivity | right; left; reflexivity | right; right; reflexivity ].

Lemma Updater_performUpdate_run (w : env) (h : list event) (s : Updater.store) :
  let r := run w h s (Updater.performUpdate this) in
  let l := commands (events r) in
  final r = s /\
  exists n,
    map fst l = firstn n pull_plan /\
    forallb snd (removelast l) = true /\
    (existsb hook_threw (events r) = false -> outcome r = inr (Nat.eqb n 4)) /\
    (forall e, outcome r = inl e -> existsb hook_threw (events r) = true) /\
    (existsb in_production (events r) = true -> n = 4) /\
    restart_scheduled (events r)
      = negb (forallb snd l) && existsb in_production (events r) /\
    (n = 4 \/ forallb snd l = false \/ existsb hook_threw (events r) = true).
Proof.
  intros r. assert (H : r = run w h s (Updater.performUpdate this)) by reflexivity.
  clearbody r.
  unfold Updater.performUpdate, Updater.optional_call in H.
  with_strategy opaque [Updater.runCommand] (run_all H).
  all: try (call_runCommand H; with_strategy opaque [Updater.runCommand] (run_all H)).
  all: try (call_runCommand H; with_strategy opaque [Updater.runCommand] (run_all H)).
  all: try (call_runCommand H; with_strategy opaque [Updater.runCommand] (run_all H)).
  all: try (rewrite run_catch_bind in H; cbn zeta in H;
            match type of H with
            | context [run ?w ?h ?s (try_catch (pbind (Updater.runCommand _ _) _) _)] =>
                destruct (restart_step_run w h s) as (F2 & O2 & K2 & done & C2 & R2);
                unfold restart_step in F2, O2, K2, C2, R2;
                destruct (run w h s (try_catch (pbind (Updater.runCommand _ _) _) _))
                  as [o2 f2 t2];
                cbn [outcome final events] in *; subst f2 o2
            end;
            run_all H).
  all: run_done H r.
  all: split; [reflexivity|].
  all: try destruct done.
  all: unfold commands, restart_scheduled in *.
  all: repeat (progress (cbn; rewrite ?collect_app, ?existsb_app, ?map_app;
               repeat match goal with E : collect command_of _ = _ |- _ => rewrite E end;
               repeat match goal with E : existsb _ _ = _ |- _ => rewrite E end)).
  all: rewrite ?orb_false_r, ?orb_true_r, ?andb_false_r; cbn.
  all: first
    [ exists 0; leaf | exists 1; leaf | exists 2; leaf | exists 3; leaf | exists 4; leaf ].
Qed.

Lemma Updater_check_result (w : env) (h : list event) (s : Updater.store) :
  let r := run w h s (Updater.checkForUpdates this) in
  exists c,
    outcome r = inr c /\
    (Updater.updateAvailable c = true ->
     exists rel tag,
       collect json_answer (events r) = [inr (BodyRelease rel)] /\
       tag_name rel = JStr tag /\
       Updater.latestVersion c = Some (JsString.strip_v tag) /\
       Updater.releaseInfo c = Some rel) /\
    (Updater.latestVersion c = None ->
     Updater.updateAvailable c = false /\ Updater.releaseInfo c = None) /\
    Updater.localVersion c <> Some "".
Proof.
  intros r. assert (H : r = run w h s (Updater.checkForUpdates this)) by reflexivity.
  clearbody r.
  unfold Updater.checkForUpdates, Updater.getLocalVersion, Updater.fetchLatestRelease in H.
  run_all H.
  all: run_done H r.
  all: eexists; split; [reflexivity|]; cbn.
  all: repeat match goal with E : Some _ = Some _ |- _ => injection E as E; subst end.
  all: repeat split; try discriminate; try (intros; discriminate); auto.
  all: try (intros _; do 2 eexists; repeat split; eauto; fail).
  all: try match goal with
           | |- (if truthy_opt ?o then _ else _) <> _ =>
               destruct o as [[|? ?]|]; cbn; discriminate
           | T : truthy_opt ?o = true |- ?o <> _ =>
               destruct o as [[|? ?]|]; cbn in *; discriminate
           end.
  all: intros _;
       repeat match goal with
              | E : match ?f with BodyNull => _ | BodyRelease _ => _ end = Some _ |- _ =>
                  destruct f; [discriminate E | injection E as E; subst]
              end;
       do 2 eexists; repeat split; eauto.
Qed.

Lemma checkAndUpdate_without_update (w : env) (h : list event) (s : Updater.store) :
  let check := run w h s (Updater.checkForUpdates this) in
  let r := run w h s (Updater.checkAndUpdate this) in
  (forall c, outcome check = inr c -> Updater.updateAvailable c = false) ->
  outcome r = inr false /\ side_effects (events r) = [] /\ final r = s.
Proof.
  intros check r N. subst r.
  change (Updater.checkAndUpdate this) with
    (pbind (Updater.checkForUpdates this)
           (fun updateCheck =>
              if Updater.updateAvailable updateCheck
              then pbind (console LLog ["[updater] Update available: "
                            ++ JsString.of_nullable (Updater.latestVersion updateCheck)])
                         (fun _ => Updater.performUpdate this)
              else pbind (console LLog ["[updater] No updates available"])
                         (fun _ => Ret false))).
  rewrite run_bind. cbn zeta. fold check.
  destruct (Updater_checkForUpdates_run this w h s) as (F & E & c & O & _).
  fold check in F, E, O.
  rewrite O, (N c O). cbn [pbind console perform].
  rewrite run_vis, run_ret. unfold emit. cbn [outcome final events].
  repeat split; auto.
  unfold side_effects in *. rewrite filter_app, E. reflexivity.
Qed.

End SourceUpdate.


(** X10: the source-control update procedure schedules the exit of the
    process in exactly one case: the three commands before it succeeded,
    the restart by PM2 ended with an error, and [NODE_ENV] is
    [production]. *)
Theorem exit_only_after_failed_pm2_in_production (this : Updater.NextJSUpdater)
    (w : env) (h : list event) (s : Updater.store) :
  let r := run w h s (Updater.performUpdate this) in
  Trace.restart_scheduled (events r) = true <->
  Steps.commands (events r) =
    [ ("git pull", true); ("npm install --no-audit --no-fund", true);
      ("npm run build", true); ("pm2 restart orbis-ship", false) ] /\
  existsb Steps.in_production (events r) = true.
Proof.
  intros r.
  destruct (Updater_performUpdate_run this w h s) as (_ & n & M & P & _ & _ & N & R & _).
  fold r in M, P, N, R. cbn zeta in *. rewrite R. split.
  - intros E. apply andb_true_iff in E as (Fl & Pr). split; [|exact Pr].
    rewrite (N Pr) in M. apply negb_true_iff in Fl.
    destruct (Steps.commands (events r)) as [|[c1 b1] [|[c2 b2] [|[c3 b3] [|[c4 b4] [|x l]]]]];
      try discriminate M.
    cbn in M, P, Fl. injection M as -> -> -> ->.
    destruct b1, b2, b3, b4; try discriminate P; try discriminate Fl. reflexivity.
  - intros (C & Pr). rewrite C, Pr. reflexivity.
Qed.

(** X11: a check of the source-control updater never rejects.  It reports
    an update only when the release feed answered with a release whose tag
    is a string, and then the latest version is the tag without its leading
    [v]; without a latest version it reports no update and no release; the
    local version it reports is never the empty string. *)
Theorem source_check_result (this : Updater.NextJSUpdater)
    (w : env) (h : list event) (s : Updater.store) :
  let r := run w h s (Updater.checkForUpdates this) in
  exists c,
    outcome r = inr c /\
    (Updater.updateAvailable c = true ->
     exists rel tag,
       Trace.collect Trace.json_answer (events r) = [inr (BodyRelease rel)] /\
       tag_name rel = JStr tag /\
       Updater.latestVersion c = Some (JsString.strip_v tag) /\
       Updater.releaseInfo c = Some rel) /\
    (Updater.latestVersion c = None ->
     Updater.updateAvailable c = false /\ Updater.releaseInfo c = None) /\
    Updater.localVersion c <> Some "".
Proof. exact (Updater_check_result this w h s). Qed.

(** X12: when the release feed gives the source-control updater no
    release (the call fails, the status is not 2xx, or the body is not a
    release), [checkAndUpdate] resolves to [false] and runs no command,
    calls no user callback and schedules nothing. *)
Theorem no_release_no_update (this : Updater.NextJSUpdater)
    (w : env) (h : list event) (s : Updater.store) :
  let check := run w h s (Updater.checkForUpdates this) in
  let r := run w h s (Updater.checkAndUpdate this) in
  (forall rel, Trace.collect Trace.json_answer (events check) <> [inr (BodyRelease rel)]) ->
  outcome r = inr false /\ Trace.side_effects (events r) = [] /\ final r = s.
Proof.
  intros check r N. apply checkAndUpdate_without_update.
  intros c O. destruct (Updater_check_result this w h s) as (c' & O' & U & _).
  fold check in O', U.
  pose proof (eq_trans (eq_sym O) O') as X. injection X as <-.
  destruct (Updater.updateAvailable c); [|reflexivity].
  destruct (U eq_refl) as (rel & tag & J & _). elim (N rel J).
Qed.

Lemma no_release_no_update_witness :
  let w := env_of Observe.no_release in
  let r := run w [] None (Updater.checkAndUpdate Scenario.updater) in
  outcome r = inr false /\ Trace.side_effects (events r) = [] /\ final r = None.
Proof.
  apply (no_release_no_update Scenario.updater (env_of Observe.no_release) [] None).
  intros rel E. vm_compute in E. discriminate E.
Defined.

(** Without PM2, in production: the update is reported as done and the
    process is about to exit. *)
Example update_without_pm2 :
  let r := run (env_of Steps.without_pm2) [] None (Updater.performUpdate Scenario.updater) in
  outcome r = inr true /\
  map snd (Steps.commands (events r)) = [true; true; true; false] /\
  Trace.restart_scheduled (events r) = true.
Proof. vm_compute. repeat split; reflexivity. Qed.

(** ** Where an update comes from *)

Section Download.

Import Route Trace Observe.

Lemma find_directory_quiet (w : env) (dir : string) (entries : list string) :
  forall h s,
    fetched (events (run w h s (find_directory dir entries))) = [] /\
    collect version_answer (events (run w h s (find_directory dir entries))) = [] /\
    collect json_answer (events (run w h s (find_directory dir entries))) = [].
Proof.
  induction entries as [|entry rest IH]; intros h s.
  - repeat split.
  - change (find_directory dir (entry :: rest)) with
      (Vis (StatIsDirectory (path_join dir entry))
           (fun x => pbind (match x with inl error => Throw error | inr b => Ret b end)
                           (fun isDirectory : bool =>
                              if isDirectory then Ret (Some entry)
                              else find_directory dir rest))).
    rewrite run_vis.
    destruct (w _ h (StatIsDirectory (path_join dir entry))) as [e|[|]]; cbn [pbind].
    + repeat split.
    + repeat split.
    + unfold emit. cbn [events]. unfold fetched in *. cbn. apply IH.
Qed.

End Download.

(** X13: the update procedure of the route installs whatever the feed
    names as the latest release: it never reads the local version, it
    fetches the release feed first and, only if the feed answered with a
    release that has a ZIP asset, the download address of the first such
    asset, and nothing else. *)
Theorem update_downloads_first_zip_asset (w : env) (h : list event) (s : Route.store) :
  let r := run w h s Route.performUpdate in
  Trace.collect Trace.version_answer (events r) = [] /\
  (Observe.fetched (events r) = [Route.GITHUB_API] \/
   exists rel zipAsset,
     Trace.collect Trace.json_answer (events r) = [inr (BodyRelease rel)] /\
     Observe.zip_asset rel = Some zipAsset /\
     Observe.fetched (events r) = [Route.GITHUB_API; browser_download_url zipAsset]).
Proof.
  intros r. assert (H : r = run w h s Route.performUpdate) by reflexivity. clearbody r.
  unfold Route.performUpdate, Route.downloadAndExtractUpdate, Route.runCommand,
    Route.property in H.
  run_all H.
  all: try rewrite run_catch_bind in H; cbn zeta in H.
  all: try match type of H with
       | context [run ?w ?h ?s (Route.find_directory ?d ?l)] =>
           let F := fresh "F" in
           let U := fresh "U" in
           let V := fresh "V" in
           let J := fresh "J" in
           destruct (find_directory_run w d l h s) as (F & _);
           destruct (find_directory_quiet w d l h s) as (U & V & J);
           destruct (run w h s (Route.find_directory d l)) as [o f t];
           cbn [outcome final events] in *; subst f; destruct o
       end.
  all: run_all H.
  all: run_done H r.
  all: unfold Observe.fetched, Observe.zip_asset in *; cbn;
       rewrite ?collect_app; try rewrite U; try rewrite V; try rewrite J; cbn.
  all: split; [reflexivity|].
  all: first
    [ left; reflexivity
    | right;
      match goal with
      | E : find _ match assets ?rel with Some _ => _ | None => _ end = Some ?a |- _ =>
          exists rel, a; split; [reflexivity|]; split; [|reflexivity];
          destruct (assets rel); [exact E|discriminate E]
      end ].
Qed.
(** ** Timers on the event loop

    The module keeps the handle of its hourly timer in [checkInterval].
    Handlers are interleaved at their [await]s, so the property is an
    invariant of the server: each handler, resumed from any state in which
    timers and [checkInterval] agree, makes them agree again before it
    gives up control. *)

Section TimerFacts.

Import Route EventLoop Timers.

Lemma keeps_weaken {A} (Q Q' : callback -> Prop)
    (Post Post' : JsError + A -> list (nat * callback) -> option nat -> Prop)
    (p : prog store A) :
  (forall cb, Q cb -> Q' cb) ->
  (forall o T c, Post o T c -> Post' o T c) ->
  forall T c, keeps Q Post T c p -> keeps Q' Post' T c p.
Proof.
  intros HQ HP. induction p as [a|e|k IH|s' k IH|X e k IH]; intros T c; cbn.
  - apply HP.
  - apply HP.
  - intros K s E. apply IH, K, E.
  - apply IH.
  - intros K x. specialize (K x). destruct (is_async e).
    + destruct K as (E & K). split; [exact E|]. intros c2. apply IH, K.
    + destruct K as (S & K). split.
      * destruct (spawned_callback e); auto.
      * apply IH, K.
Qed.

Lemma keeps_bind {A B} (Q : callback -> Prop)
    (Post : JsError + B -> list (nat * callback) -> option nat -> Prop)
    (p : prog store A) (f : A -> prog store B) :
  forall T c,
    keeps Q (fun o T' c' => match o with
                            | inr a => keeps Q Post T' c' (f a)
                            | inl e => Post (inl e) T' c'
                            end) T c p ->
    keeps Q Post T c (pbind p f).
Proof.
  induction p as [a|e|k IH|s' k IH|X e k IH]; intros T c; cbn.
  - auto.
  - auto.
  - intros K s E. apply IH, K, E.
  - apply IH.
  - intros K x. specialize (K x). destruct (is_async e).
    + destruct K as (E & K). split; [exact E|]. intros c2. apply IH, K.
    + destruct K as (S & K). split; [exact S|]. apply IH, K.
Qed.

Lemma keeps_catch {A} (Q : callback -> Prop)
    (Post : JsError + A -> list (nat * callback) -> option nat -> Prop)
    (p : prog store A) (h : JsError -> prog store A) :
  forall T c,
    keeps Q (fun o T' c' => match o with
                            | inr a => Post (inr a) T' c'
                            | inl e => keeps Q Post T' c' (h e)
                            end) T c p ->
    keeps Q Post T c (try_catch p h).
Proof.
  induction p as [a|e|k IH|s' k IH|X e k IH]; intros T c; cbn.
  - auto.
  - auto.
  - intros K s E. apply IH, K, E.
  - apply IH.
  - intros K x. specialize (K x). destruct (is_async e).
    + destruct K as (E & K). split; [exact E|]. intros c2. apply IH, K.
    + destruct K as (S & K). split; [exact S|]. apply IH, K.
Qed.

Lemma keeps_find_directory (Q : callback -> Prop)
    (Post : JsError + option string -> list (nat * callback) -> option nat -> Prop)
    (dir : string) (entries : list string) (T : list (nat * callback)) (c : option nat) :
  (forall o, Post o T c) -> keeps Q Post T c (find_directory dir entries).
Proof.
  intros P. induction entries as [|entry rest IH]; cbn.
  - apply P.
  - intros [e|[|]]; cbn; (split; [exact I|]); auto.
Qed.

Ltac keep_step :=
  first
    [ progress cbn
    | match goal with
      | |- forall _, _ => intro
      | |- _ /\ _ => split
      | |- True => exact I
      | |- in_step _ _ _ => unfold in_step
      | |- ?x = ?x => reflexivity
      | |- registered ?c = registered ?d => congruence
      | |- keeps _ _ _ _ (find_directory _ _) => apply keeps_find_directory
      | |- keeps _ _ _ _ (pbind _ _) => apply keeps_bind
      | |- keeps _ _ _ _ (try_catch _ _) => apply keeps_catch
      | |- context [match ?x with inl _ => _ | inr _ => _ end] => destruct x
      | |- context [if negb ?b then _ else _] => destruct b eqn:?
      | |- context [if ?b then _ else _] => destruct b eqn:?
      | |- context [match ?x with Some _ => _ | None => _ end] => destruct x eqn:?
      | |- context [match ?x with BodyNull => _ | BodyRelease _ => _ end] => destruct x
      end ].

Lemma checkForUpdates_keeps (Q : callback -> Prop) (c : option nat) :
  keeps Q in_step (registered c) c checkForUpdates.
Proof.
  unfold checkForUpdates, isInternetAvailable, getLocalVersion, assign, property,
    attempt, perform, console, throwing.
  repeat keep_step.
Qed.

Lemma performUpdate_keeps (Q : callback -> Prop) (c : option nat) :
  keeps Q in_step (registered c) c performUpdate.
Proof.
  unfold performUpdate, downloadAndExtractUpdate, runCommand, property,
    attempt, perform, console, throwing.
  repeat keep_step.
Qed.

Lemma GET_keeps (Q : callback -> Prop) (c : option nat) :
  keeps Q in_step (registered c) c GET.
Proof.
  unfold GET, getLocalVersion, attempt, perform, console.
  repeat keep_step.
Qed.

Lemma callee_calm (cb : callback) : calm_callee cb.
Proof.
  destruct cb; unfold calm_callee, code, handler; cbn; [|exact I].
  unfold checkForUpdates, isInternetAvailable, getLocalVersion, assign, property,
    attempt, perform, console, throwing.
  cbn. intros []. split; [reflexivity|]. split; [reflexivity|].
  intros x c. repeat keep_step.
Qed.

#[local] Arguments calm_callee : simpl never.

Ltac keep_more :=
  first
    [ match goal with
      | |- calm_callee _ => apply callee_calm
      | |- context [Nat.eqb ?n ?n] => rewrite Nat.eqb_refl
      | H : Some _ = Some _ |- _ => injection H as H; subst
      | H : Nat.eqb ?n ?n = false |- _ => rewrite Nat.eqb_refl in H; discriminate H
      | H : None = Some _ |- _ => discriminate H
      | H : Some _ = None |- _ => discriminate H
      end
    | keep_step ].

Lemma POST_keeps (request : NextRequest) (c : option nat) :
  keeps calm_callee in_step (registered c) c (POST request).
Proof.
  unfold POST, destructure_action, action_is, startBackgroundUpdater, stopBackgroundUpdater,
    checkForUpdates, performUpdate, downloadAndExtractUpdate, runCommand,
    isInternetAvailable, getLocalVersion, assign, property,
    attempt, perform, console, throwing.
  destruct request as [e|[|[a|]]].
  - repeat keep_step.
  - repeat keep_step.
  - cbn.
    destruct (String.eqb a "start"); [| destruct (String.eqb a "stop");
      [| destruct (String.eqb a "check"); [| destruct (String.eqb a "update")]]].
    + cbn. intros s <-. destruct (checkInterval s) eqn:E; repeat keep_more.
    + cbn. intros s <-. destruct (checkInterval s) eqn:E; repeat keep_more.
    + repeat keep_step.
    + repeat keep_step.
    + repeat keep_step.
  - repeat keep_step.
Qed.

Lemma initialize_keeps :
  keeps calm_callee in_step [] None
        (handler initializeAutoUpdater (fun _ => None) : M reply).
Proof.
  unfold handler, initializeAutoUpdater, startBackgroundUpdater, assign, perform, console.
  cbn. intros s E. destruct (isUpdaterRunning s); cbn.
  - unfold in_step. reflexivity.
  - intros s1 E1. rewrite E1. cbn. repeat keep_more.
Qed.

Lemma timers_after_app (t1 t2 : list event) (T : list (nat * callback)) :
  timers_after (t1 ++ t2) T = timers_after t2 (timers_after t1 T).
Proof. unfold timers_after. apply fold_left_app. Qed.

(** A callee that is calm leaves store and timers alone up to its first
    [await]. *)
Lemma advance_callee_calm (w : env) (p : M reply) :
  calm p ->
  forall h s,
    slice_store (advance_callee w h s p) = s /\
    (forall T, timers_after (slice_events (advance_callee w h s p)) T = T) /\
    (forall o, Forall task_ok (as_task o (slice_end (advance_callee w h s p)))).
Proof.
  induction p as [a|e|k IH|s' k IH|X e k IH]; cbn; intros C h s.
  - repeat split; constructor.
  - repeat split; constructor.
  - apply IH, C.
  - destruct C.
  - destruct (is_async e) eqn:A; cbn.
    + split; [reflexivity|]. split; [reflexivity|].
      intros o. constructor; [|constructor].
      intros x c. cbn.
      apply keeps_weaken with (Q := fun _ => False) (Post := in_step);
        [intros ? []|auto|apply C].
    + destruct (C (w X h e)) as (R & _ & C').
      destruct (IH _ C' (h ++ [Ev e (w X h e)])%list s) as (S1 & T1 & K1).
      split; [exact S1|]. split; [|exact K1].
      intros T.
      change (timers_after
                (slice_events (advance_callee w (h ++ [Ev e (w X h e)]) s (k (w X h e))))
                (register (Ev e (w X h e)) T) = T).
      rewrite R. apply T1.
Qed.

(** A slice of a handler that keeps timers and [checkInterval] in step
    ends with the two in step, and what it leaves suspended does so too. *)
Lemma advance_keeps (w : env) (p : M reply) :
  forall h s T,
    keeps calm_callee in_step T (checkInterval s) p ->
    timers_after (slice_events (advance w h s p)) T
      = registered (checkInterval (slice_store (advance w h s p))) /\
    Forall task_ok (slice_spawned (advance w h s p)) /\
    (forall o, Forall task_ok (as_task o (slice_end (advance w h s p)))).
Proof.
  induction p as [a|e|k IH|s' k IH|X e k IH]; cbn; intros h s T K.
  - repeat split; solve [exact K | constructor].
  - repeat split; solve [exact K | constructor].
  - apply IH, K. reflexivity.
  - apply IH, K.
  - destruct (is_async e) eqn:A; cbn.
    + split; [apply (K (w X h e))|]. split; [constructor|].
      intros o. constructor; [|constructor].
      intros x c. cbn. apply (K x).
    + destruct (K (w X h e)) as (Q & K').
      destruct (spawned_callback e) as [cb|] eqn:Sp; cbn.
      * destruct (advance_callee_calm w (code cb) Q (h ++ [Ev e (w X h e)])%list s)
          as (S1 & T1 & K1).
        rewrite S1.
        destruct (IH _ ((h ++ [Ev e (w X h e)]) ++
                    slice_events (advance_callee w (h ++ [Ev e (w X h e)]) s (code cb)))%list
                    s _ K') as (E2 & F2 & K2).
        split; [|split].
        -- rewrite <- E2.
           change (timers_after
                     (slice_events (advance_callee w (h ++ [Ev e (w X h e)]) s (code cb)) ++
                      slice_events
                        (advance w ((h ++ [Ev e (w X h e)]) ++
                           slice_events (advance_callee w (h ++ [Ev e (w X h e)]) s (code cb)))
                           s (k (w X h e))))
                     (register (Ev e (w X h e)) T) =
                   timers_after
                     (slice_events
                        (advance w ((h ++ [Ev e (w X h e)]) ++
                           slice_events (advance_callee w (h ++ [Ev e (w X h e)]) s (code cb)))
                           s (k (w X h e))))
                     (register (Ev e (w X h e)) T)).
           rewrite timers_after_app, T1. reflexivity.
        -- apply Forall_app. split; [apply K1|exact F2].
        -- exact K2.
      * destruct (IH _ (h ++ [Ev e (w X h e)])%list s _ K') as (E2 & F2 & K2).
        split; [|split]; [exact E2|exact F2|exact K2].
Qed.

Lemma handler_keeps {A} (p : M A) (f : A -> reply) (c : option nat) :
  keeps calm_callee in_step (registered c) c p ->
  keeps calm_callee in_step (registered c) c (handler p f).
Proof.
  intros K. unfold handler. apply keeps_bind.
  eapply keeps_weaken; [| |exact K]; [auto|].
  intros [e|a] T c' P; exact P.
Qed.

Lemma code_keeps (cb : callback) (c : option nat) :
  keeps calm_callee in_step (registered c) c (code cb).
Proof.
  destruct cb; cbn [code].
  - exact (handler_keeps _ _ _ (checkForUpdates_keeps _ _)).
  - reflexivity.
Qed.

Lemma entry_keeps (o : source) (p : M reply) (c : option nat) :
  entry o = Some p -> keeps calm_callee in_step (registered c) c p.
Proof.
  destruct o; cbn; intros E; try discriminate E; injection E as <-.
  - exact (handler_keeps _ _ _ (GET_keeps _ _)).
  - exact (handler_keeps _ _ _ (POST_keeps _ _)).
Qed.

Lemma remove_nth_Forall {A} (P : A -> Prop) (l : list A) :
  Forall P l -> forall i, Forall P (remove_nth i l).
Proof.
  induction 1 as [|x l Px F IH]; intros [|i]; cbn; auto.
Qed.

Lemma absorb_invariant (w : env) (o : source) (h prefix : list event) (p : M reply)
    (rest : list task) (srv : server) :
  consistent srv ->
  Forall task_ok rest ->
  keeps calm_callee in_step (registered (checkInterval (mem srv))) (checkInterval (mem srv)) p ->
  invariant (absorb o (advance w h (mem srv) p) prefix rest srv).
Proof.
  intros C F K. unfold consistent in C. rewrite <- C in K at 1.
  destruct (advance_keeps w p h (mem srv) _ K) as (E & F1 & F2).
  split.
  - exact E.
  - cbn. apply Forall_app. split; [exact F|]. apply Forall_app. split; [exact F1|apply F2].
Qed.

Lemma step_invariant (w : env) (srv srv' : server) (i : input) :
  invariant srv -> step w srv i = Some srv' -> invariant srv'.
Proof.
  intros (C & F) S. destruct i as [o|handle|i]; cbn in S.
  - destruct (entry o) as [p|] eqn:E; [|discriminate S]. injection S as <-.
    apply absorb_invariant; [exact C|exact F|]. eapply entry_keeps, E.
  - destruct (find _ _) as [[n cb]|]; [|discriminate S]. injection S as <-.
    apply absorb_invariant; [exact C|exact F|]. apply code_keeps.
  - destruct (nth_error (pending srv) i) as [t|] eqn:E; [|discriminate S]. injection S as <-.
    apply absorb_invariant; [exact C|apply remove_nth_Forall, F|].
    apply nth_error_In in E. rewrite Forall_forall in F. apply (F t E).
Qed.

Lemma boot_invariant (w : env) (loaded_at : string) : invariant (boot w loaded_at).
Proof.
  unfold boot.
  destruct (advance_keeps w (handler initializeAutoUpdater (fun _ => None)) []
              (initial_store loaded_at) [] initialize_keeps) as (E & F & _).
  split; [exact E|exact F].
Qed.

Lemma steps_invariant (w : env) (inputs : list input) :
  forall srv srv', invariant srv -> steps w srv inputs = Some srv' -> invariant srv'.
Proof.
  induction inputs as [|i rest IH]; cbn; intros srv srv' I S.
  - injection S as <-. exact I.
  - destruct (step w srv i) as [srv1|] eqn:E; [|discriminate S].
    eapply IH; [|exact S]. eapply step_invariant; eauto.
Qed.

End TimerFacts.

(** X14: loading the module starts the updater: [isUpdaterRunning] is
    true, one hourly timer for [checkForUpdates] is set and its handle is
    in [checkInterval], and one check is in progress, waiting for the
    connectivity probe.  Calling [initializeAutoUpdater] again from there
    does nothing at all. *)
Theorem module_load_starts_updater (w : env) (loaded_at : string) :
  let srv := EventLoop.boot w loaded_at in
  exists handle,
    EventLoop.mem srv
      = Route.mkStore true (Some handle)
                      (Route.lastUpdateInfo (Route.initial_store loaded_at)) /\
    EventLoop.intervals srv = [(handle, CbCheckForUpdates)] /\
    map EventLoop.origin (EventLoop.pending srv) = [EventLoop.FromSpawn CbCheckForUpdates] /\
    Observe.timer_ops (EventLoop.log srv)
      = [Observe.OpSpawn CbCheckForUpdates;
         Observe.OpSetInterval CbCheckForUpdates Route.UPDATE_CHECK_INTERVAL handle] /\
    forall h,
      run w h (EventLoop.mem srv) Route.initializeAutoUpdater
        = mkResult (inr tt) (EventLoop.mem srv) [].
Proof.
  intros srv. subst srv. unfold EventLoop.boot. cbn.
  eexists. repeat split.
Qed.

(** X15: whatever requests arrive, timers fire and awaited calls are
    answered, in whatever order, the server has at most one interval timer:
    the one whose handle is in [checkInterval], calling [checkForUpdates];
    when [checkInterval] is null there is none.  A [start] command, however
    often it is repeated, never leaves a second timer behind. *)
Theorem one_interval_timer (w : env) (loaded_at : string)
    (inputs : list EventLoop.input) (srv : EventLoop.server) :
  EventLoop.steps w (EventLoop.boot w loaded_at) inputs = Some srv ->
  EventLoop.intervals srv = Timers.registered (Route.checkInterval (EventLoop.mem srv)) /\
  length (EventLoop.intervals srv) <= 1.
Proof.
  intros S.
  destruct (steps_invariant w inputs _ _ (boot_invariant w loaded_at) S) as (C & _).
  unfold Timers.consistent in C. split; [exact C|].
  rewrite C. destruct (Route.checkInterval (EventLoop.mem srv)); cbn; lia.
Qed.

Lemma one_interval_timer_witness :
  let w := env_of Scenario.release_121 in
  exists srv,
    EventLoop.steps w (EventLoop.boot w "boot") Timers.session = Some srv /\
    EventLoop.intervals srv = Timers.registered (Route.checkInterval (EventLoop.mem srv)) /\
    length (EventLoop.intervals srv) <= 1.
Proof.
  intros w.
  destruct (EventLoop.steps w (EventLoop.boot w "boot") Timers.session) as [srv|] eqn:E.
  - exists srv. split; [reflexivity|].
    apply (one_interval_timer w "boot" Timers.session srv E).
  - vm_compute in E. discriminate E.
Defined.

(** The session of the witness, at its end: three checks are in progress
    and one timer is set. *)
Example session_ends_with_one_timer :
  let w := env_of Scenario.release_121 in
  match EventLoop.steps w (EventLoop.boot w "boot") Timers.session with
  | Some srv =>
      EventLoop.intervals srv = [(1, CbCheckForUpdates)] /\
      length (EventLoop.pending srv) = 3 /\
      length (EventLoop.sent srv) = 4
  | None => False
  end.
Proof. vm_compute. repeat split; reflexivity. Qed.

(** X16: a [stop] command, whenever it arrives, is answered at once and
    leaves the server without any interval timer, with [isUpdaterRunning]
    false and [checkInterval] null.  It cancels nothing that is in
    progress: the handlers waiting for an answer are the same as before. *)
Theorem stop_leaves_no_timer (w : env) (loaded_at : string)
    (inputs : list EventLoop.input) (srv : EventLoop.server) :
  EventLoop.steps w (EventLoop.boot w loaded_at) inputs = Some srv ->
  exists srv',
    EventLoop.step w srv (EventLoop.Request (EventLoop.FromPOST Observe.stop_request))
      = Some srv' /\
    EventLoop.intervals srv' = [] /\
    Route.isUpdaterRunning (EventLoop.mem srv') = false /\
    Route.checkInterval (EventLoop.mem srv') = None /\
    EventLoop.pending srv' = EventLoop.pending srv /\
    length (EventLoop.sent srv') = S (length (EventLoop.sent srv)).
Proof.
  intros S.
  destruct (steps_invariant w inputs _ _ (boot_invariant w loaded_at) S) as (C & _).
  unfold Timers.consistent in C.
  eexists. split; [reflexivity|].
  unfold EventLoop.dispatch, EventLoop.absorb, EventLoop.handler, Route.POST,
    Route.stopBackgroundUpdater, Route.assign, perform, console.
  cbn. unfold Route.set_isUpdaterRunning. cbn.
  destruct (Route.checkInterval (EventLoop.mem srv)) as [handle|] eqn:E; cbn.
  - rewrite C. cbn. rewrite Nat.eqb_refl, app_nil_r, length_app. cbn.
    repeat split; lia.
  - rewrite C. cbn. rewrite app_nil_r, length_app. cbn. repeat split; lia.
Qed.

Lemma stop_leaves_no_timer_witness :
  let w := env_of Scenario.release_121 in
  exists srv srv',
    EventLoop.steps w (EventLoop.boot w "boot")
                    [EventLoop.Request (EventLoop.FromPOST Observe.start_request)]
      = Some srv /\
    EventLoop.step w srv (EventLoop.Request (EventLoop.FromPOST Observe.stop_request))
      = Some srv' /\
    EventLoop.intervals srv' = [] /\
    length (EventLoop.pending srv') = 2.
Proof.
  intros w.
  destruct (EventLoop.steps w (EventLoop.boot w "boot")
              [EventLoop.Request (EventLoop.FromPOST Observe.start_request)])
    as [srv|] eqn:E.
  - destruct (stop_leaves_no_timer w "boot" _ srv E) as (srv' & S & T & _ & _ & P & _).
    exists srv, srv'. split; [reflexivity|]. split; [exact S|]. split; [exact T|].
    rewrite P. vm_compute in E. injection E as <-. reflexivity.
  - vm_compute in E. discriminate E.
Defined.

(** ** Concrete runs *)

Example match_version_release_name :
  JsString.match_version "Orbis Ship Latest (v0.0.9)" = Some "0.0.9".
Proof. reflexivity. Qed.

Example match_version_takes_leftmost :
  JsString.match_version "x (v1.2) (1.2.3.4) (v9.9.9)" = Some "1.2.3.4".
Proof. reflexivity. Qed.

Example match_version_without_token : JsString.match_version "Nightly (v1.2.x)" = None.
Proof. reflexivity. Qed.

Example endsWith_zip :
  JsString.endsWith "orbis-ship.zip" ".zip" = true /\
  JsString.endsWith "zip" ".zip" = false.
Proof. split; reflexivity. Qed.

Example trim_output : JsString.trim "  ok done  " = "ok done".
Proof. reflexivity. Qed.

Example dirname_of_package_json :
  Updater.dirname "C:/orbis/package.json" = "C:/orbis" /\ Updater.dirname "package.json" = ".".
Proof. split; reflexivity. Qed.

Example of_nat_status : JsString.of_nat 404 = "404".
Proof. reflexivity. Qed.

(** The check of the spec's first scenario, event by event. *)
Example check_console_lines :
  Trace.console_lines
    (events (run (env_of Scenario.newer_release) [] Scenario.boot_store
                 Route.checkForUpdates)) =
  [ (LLog, ["[updater] Checking for updates..."]);
    (LLog, ["[updater] Release name: " ++ dquote ++ "Release (v1.2.1)" ++ dquote]);
    (LLog, ["[updater] Extracted version from name: 1.2.1"]);
    (LLog, ["[updater] Local version: 1.2.0 | Latest version: 1.2.1"]);
    (LLog, ["[updater] Update available: 1.2.0 " ++ arrow ++ " 1.2.1"]) ].
Proof. reflexivity. Qed.

(** [GET] after that check. *)
Example status_after_check :
  let w := env_of Scenario.newer_release in
  let checked := run w [] Scenario.boot_store Route.checkForUpdates in
  outcome (run w (events checked) (final checked) Route.GET) =
  inr (Route.mkHttp 200 true
         (Route.StatusData false (Some "1.2.0") "mehtabshadan/orbis-ship"
            "2025-01-01T00:00:00.000Z" true (Some "1.2.1") (JStr "Release (v1.2.1)")
            "Auto-updater is stopped")).
Proof. reflexivity. Qed.

(** An action that is none of the four. *)
Example invalid_action :
  outcome (run (env_of Scenario.release_121) [] Scenario.boot_store
               (Route.POST (inr (Route.ReqObject (Some "restart"))))) =
  inr (Route.mkHttp 400 false
         (Route.ErrorData "Invalid action. Supported actions: start, stop, check, update")).
Proof. reflexivity. Qed.

(** Once the module is loaded the hourly timer is set and the first check
    awaits its probe. *)
Example boot_state :
  let srv := EventLoop.boot (env_of Scenario.release_121) "boot" in
  EventLoop.intervals srv = [(1, CbCheckForUpdates)] /\
  length (EventLoop.pending srv) = 1 /\
  Route.isUpdaterRunning (EventLoop.mem srv) = true /\
  Route.checkInterval (EventLoop.mem srv) = Some 1.
Proof. vm_compute. repeat split; reflexivity. Qed.
